(** * Environment-variable resolution of the CLI

    A shallow embedding of [src/utils/env/index.js]: the context normalizer,
    the value selector, the source partitioner, the scoped-record formatter,
    the precedence merger, the two legacy translators and the scope
    humanizer, followed by the properties that the specification states
    about them.

    JavaScript strings are modelled as sequences of 8-bit characters
    ([String.string]). On ASCII strings [toLowerCase] and [<] are those of
    JavaScript; characters outside ASCII are carried along unchanged, and
    the statements that depend on the order of keys are about ASCII
    keys. *)

From Stdlib Require Import List String Ascii Bool NArith ZArith.
From Stdlib Require Import Permutation Sorted RelationClasses OrdersEx.
Import ListNotations.

Local Open Scope string_scope.
Local Open Scope list_scope.

(** ** The JavaScript primitives the module relies on *)

Module Js.

(** *** Completions: a call either returns or throws *)

Inductive ApiFailure : Type :=
| forbidden
| network
| auth_expired
| server_error.

Inductive exn : Type :=
| TypeError
| ApiError (failure : ApiFailure).

Inductive completion (A : Type) : Type :=
| Return (a : A)
| Throw (e : exn).

Arguments Return {A} a.
Arguments Throw {A} e.

Definition bind {A B : Type} (c : completion A) (k : A -> completion B)
  : completion B :=
  match c with
  | Return a => k a
  | Throw e => Throw e
  end.

(** [try { body } catch { handler }] with a handler that ignores the
    exception value. *)
Definition try_catch {A : Type} (body : completion A) (handler : completion A)
  : completion A :=
  match body with
  | Return a => Return a
  | Throw _ => handler
  end.

(** [array.reduce] with a callback that may throw. *)
Fixpoint reduce {A B : Type} (f : B -> A -> completion B) (l : list A) (acc : B)
  : completion B :=
  match l with
  | [] => Return acc
  | x :: rest => bind (f acc x) (reduce f rest)
  end.

(** A parameter with a default value: the default replaces [undefined]
    only. *)
Definition default {A : Type} (d : A) (arg : option A) : A :=
  match arg with
  | Some a => a
  | None => d
  end.

(** *** Strings *)

Definition lower_ascii (c : ascii) : ascii :=
  let n := N_of_ascii c in
  if (65 <=? n)%N && (n <=? 90)%N then ascii_of_N (n + 32) else c.

(** [s.toLowerCase()] on ASCII strings: the letters A to Z are lowered.
    A character outside ASCII is left as it is, which is not the case
    folding of JavaScript; see [asciiKey]. *)
Fixpoint toLowerCase (s : string) : string :=
  match s with
  | EmptyString => EmptyString
  | String c rest => String (lower_ascii c) (toLowerCase rest)
  end.

(** [a < b] on strings: the lexicographic order of the character
    codes. *)
Definition str_lt (a b : string) : bool :=
  match String_as_OT.compare a b with
  | Lt => true
  | _ => false
  end.

(** [s.replace(/^prefix/, '')] for a literal prefix. *)
Fixpoint drop (n : nat) (s : string) : string :=
  match n, s with
  | S n', String _ rest => drop n' rest
  | _, _ => s
  end.

Definition replace_prefix (prefix s : string) : string :=
  if String.prefix prefix s then drop (String.length prefix) s else s.

(** [array.includes(x)] on strings. *)
Definition includes (x : string) (l : list string) : bool :=
  existsb (String.eqb x) l.

(** [array.join(sep)]; an [undefined] element is rendered as the empty
    string. *)
Fixpoint join (sep : string) (l : list (option string)) : string :=
  match l with
  | [] => ""
  | [x] => default "" x
  | x :: rest => default "" x ++ sep ++ join sep rest
  end.

(** The names every plain object inherits from [Object.prototype]; the
    [in] operator sees them. *)
Definition OBJECT_PROTOTYPE_KEYS : list string :=
  [ "constructor"; "hasOwnProperty"; "isPrototypeOf"; "propertyIsEnumerable";
    "toLocaleString"; "toString"; "valueOf"; "__proto__";
    "__defineGetter__"; "__defineSetter__"; "__lookupGetter__";
    "__lookupSetter__" ].

(** *** Arrays *)

(** [array.sort(cmp)], as a stable insertion sort that looks only at the
    sign of the comparator: an element is placed in front of the first
    element it compares below. *)
Fixpoint sort_insert {A : Type} (cmp : A -> A -> Z) (x : A) (sorted : list A)
  : list A :=
  match sorted with
  | [] => [x]
  | y :: rest =>
      if (cmp x y <? 0)%Z then x :: y :: rest
      else y :: sort_insert cmp x rest
  end.

Definition sort {A : Type} (cmp : A -> A -> Z) (l : list A) : list A :=
  fold_left (fun sorted x => sort_insert cmp x sorted) l [].

(** *** Plain objects

    An object is the list of its own properties in enumeration order:
    the keys that are array indices first, in ascending numeric order,
    then the other keys in the order they were created. *)

Definition is_digit (c : ascii) : bool :=
  let n := N_of_ascii c in (48 <=? n)%N && (n <=? 57)%N.

Fixpoint parse_digits (s : string) (acc : N) : option N :=
  match s with
  | EmptyString => Some acc
  | String c rest =>
      if is_digit c
      then parse_digits rest (acc * 10 + (N_of_ascii c - 48))%N
      else None
  end.

(** A key is an array index when it is the canonical decimal form of an
    integer between 0 and 2^32 - 2. *)
Definition array_index (k : string) : option N :=
  match k with
  | EmptyString => None
  | String c rest =>
      if Ascii.eqb c "0"
      then (if String.eqb rest "" then Some 0%N else None)
      else match parse_digits k 0 with
           | Some n => if (n <=? 4294967294)%N then Some n else None
           | None => None
           end
  end.

Definition obj (V : Type) : Type := list (string * V).

Definition keys {V : Type} (o : obj V) : list string := map fst o.

Fixpoint obj_get {V : Type} (k : string) (o : obj V) : option V :=
  match o with
  | [] => None
  | (k', v) :: rest => if String.eqb k k' then Some v else obj_get k rest
  end.

Definition obj_has {V : Type} (k : string) (o : obj V) : bool :=
  match obj_get k o with
  | Some _ => true
  | None => false
  end.

(** Assigning to an existing property keeps its position. *)
Fixpoint obj_replace {V : Type} (k : string) (v : V) (o : obj V) : obj V :=
  match o with
  | [] => []
  | (k', v') :: rest =>
      if String.eqb k k' then (k, v) :: rest
      else (k', v') :: obj_replace k v rest
  end.

(** A new array-index property goes in front of the first property that
    is not an array index or that has a larger index. *)
Fixpoint obj_insert_index {V : Type} (i : N) (k : string) (v : V) (o : obj V)
  : obj V :=
  match o with
  | [] => [(k, v)]
  | (k', v') :: rest =>
      match array_index k' with
      | Some j =>
          if (i <? j)%N then (k, v) :: (k', v') :: rest
          else (k', v') :: obj_insert_index i k v rest
      | None => (k, v) :: (k', v') :: rest
      end
  end.

(** [o[k] = v] *)
Definition obj_set {V : Type} (k : string) (v : V) (o : obj V) : obj V :=
  if obj_has k o then obj_replace k v o
  else match array_index k with
       | Some i => obj_insert_index i k v o
       | None => o ++ [(k, v)]
       end.

(** [{ ...target, ...source }]: the properties of [source] are assigned
    one after the other, in its enumeration order. *)
Definition obj_assign {V : Type} (target source : obj V) : obj V :=
  fold_left (fun o kv => obj_set (fst kv) (snd kv) o) source target.

(** [Object.entries(o)] *)
Definition entries {V : Type} (o : obj V) : list (string * V) := o.

(** [Object.fromEntries(l)] *)
Definition fromEntries {V : Type} (l : list (string * V)) : obj V :=
  obj_assign [] l.

End Js.

Import Js.

Declare Scope completion_scope.
Delimit Scope completion_scope with completion.
Notation "x <- c ;; k" := (bind c (fun x => k))
  (at level 61, c at next level, right associativity) : completion_scope.
Local Open Scope completion_scope.

(** ** The data model of [src/utils/env/index.js] *)

Inductive Scope : Type :=
| builds
| functions
| runtime
| post_processing.

(** The [scope] argument: one of the scopes, or ['any']. *)
Inductive RequestedScope : Type :=
| any
| only (s : Scope).

Inductive Source : Type :=
| general
| account
| addons
| ui
| configFile.

Definition Scope_eqb (a b : Scope) : bool :=
  match a, b with
  | builds, builds
  | functions, functions
  | runtime, runtime
  | post_processing, post_processing => true
  | _, _ => false
  end.

Definition RequestedScope_eqb (a b : RequestedScope) : bool :=
  match a, b with
  | any, any => true
  | only s, only t => Scope_eqb s t
  | _, _ => false
  end.

Definition Source_eqb (a b : Source) : bool :=
  match a, b with
  | general, general
  | account, account
  | addons, addons
  | ui, ui
  | configFile, configFile => true
  | _, _ => false
  end.

(** One value of an Envelope item: [{ context, context_parameter, value }]. *)
Record EnvelopeValue : Type := mkValue {
  val_context : string;
  val_context_parameter : option string;
  val_value : string
}.

(** An Envelope item: [{ key, scopes, values }]. *)
Record EnvelopeItem : Type := mkItem {
  item_key : string;
  item_scopes : list Scope;
  item_values : list EnvelopeValue
}.

(** An entry of the resolved mapping:
    [{ context, branch, scopes, sources, value }]. *)
Record EnvVar : Type := mkEnvVar {
  var_context : option string;
  var_branch : option string;
  var_scopes : option (list Scope);
  var_sources : list Source;
  var_value : string
}.

(** What [fetchEnvelopeItems] resolves to: the empty object literal or an
    array of items. *)
Inductive Fetched : Type :=
| EmptyObject
| Items (items : list EnvelopeItem).

(** The [api] singleton: the two calls of the store client. *)
Record Api : Type := mkApi {
  getEnvVar : string -> string -> option string -> completion EnvelopeItem;
  getEnvVars : string -> option string -> completion (list EnvelopeItem)
}.

(** [siteInfo]: [{ account_slug, id }]. *)
Record SiteInfo : Type := mkSiteInfo {
  account_slug : option string;
  id : option string
}.

(** ** The functions of [src/utils/env/index.js] *)

Definition AVAILABLE_CONTEXTS : list string :=
  ["all"; "production"; "deploy-preview"; "branch-deploy"; "dev"].

Definition AVAILABLE_SCOPES : list Scope :=
  [builds; functions; runtime; post_processing].

Definition CONTEXT_SYNONYMS : obj string :=
  [("dp", "deploy-preview"); ("prod", "production")].

(** [normalizeContext]: a name that [CONTEXT_SYNONYMS] only inherits is
    [in] the object too; what is read for it is not a string and the call
    of [replace] on it throws. *)
Definition normalizeContext (context : option string)
  : completion (option string) :=
  match context with
  | None => Return None
  | Some "" => Return (Some "")
  | Some c =>
      if obj_has c CONTEXT_SYNONYMS || includes c OBJECT_PROTOTYPE_KEYS
      then match obj_get c CONTEXT_SYNONYMS with
           | Some synonym => Return (Some (replace_prefix "branch:" synonym))
           | None => Throw TypeError
           end
      else Return (Some (replace_prefix "branch:" c))
  end.

Definition findValueInValues (values : list EnvelopeValue) (context : string)
  : option EnvelopeValue :=
  find (fun val =>
          if negb (includes context AVAILABLE_CONTEXTS)
          then includes (val_context val) ["branch"; "all"]
               && match val_context_parameter val with
                  | Some parameter => String.eqb parameter context
                  | None => false
                  end
          else includes (val_context val) [context; "all"])
       values.

(** [variable.sources[0] === source] *)
Definition fromSource (source : Source) (variable : EnvVar) : bool :=
  match var_sources variable with
  | first :: _ => Source_eqb first source
  | [] => false
  end.

Definition filterEnvBySource (env : obj EnvVar) (source : Source) : obj EnvVar :=
  fromEntries (filter (fun entry => fromSource source (snd entry)) (entries env)).

(** [fetchEnvelopeItems({ accountId, api, key, siteId })]; a rejected
    promise is a thrown completion. *)
Definition fetchEnvelopeItems (accountId : option string) (api : Api)
    (key : string) (siteId : option string) : completion Fetched :=
  match accountId with
  | None => Return EmptyObject
  | Some accountId =>
      try_catch
        (if negb (String.eqb key "")
         then (envelopeItem <- getEnvVar api accountId key siteId ;;
               Return (Items [envelopeItem]))
         else (envelopeItems <- getEnvVars api accountId siteId ;;
               Return (Items envelopeItems)))
        (Return (Items []))
  end.

(** The comparator of both [sort] calls. *)
Definition compareKeys (left right : EnvelopeItem) : Z :=
  if str_lt (toLowerCase (item_key left)) (toLowerCase (item_key right))
  then (-1)%Z else 1%Z.

(** The callback of the [reduce] in [formatEnvelopeData]: destructuring
    the selected value throws when there is none. *)
Definition formatStep (context : string) (source : Source)
    (acc : obj EnvVar) (cur : EnvelopeItem) : completion (obj EnvVar) :=
  match findValueInValues (item_values cur) context with
  | None => Throw TypeError
  | Some val =>
      Return (obj_set (item_key cur)
                {| var_context := Some (val_context val);
                   var_branch := val_context_parameter val;
                   var_scopes := Some (item_scopes cur);
                   var_sources := [source];
                   var_value := val_value val |}
                (obj_assign [] acc))
  end.

(** [formatEnvelopeData({ context = 'dev', envelopeItems = [], scope = 'any',
    source })]; [filter] is not a method of a plain object. *)
Definition formatEnvelopeData (context : option string)
    (envelopeItems : option Fetched) (scope : option RequestedScope)
    (source : Source) : completion (obj EnvVar) :=
  let context := default "dev" context in
  let scope := default any scope in
  match default (Items []) envelopeItems with
  | EmptyObject => Throw TypeError
  | Items items =>
      let byContext :=
        filter (fun item =>
                  match findValueInValues (item_values item) context with
                  | Some _ => true
                  | None => false
                  end) items in
      let byScope :=
        filter (fun item =>
                  match scope with
                  | any => true
                  | only s => existsb (Scope_eqb s) (item_scopes item)
                  end) byContext in
      reduce (formatStep context source) (sort compareKeys byScope) []
  end.

Definition includeConfigEnvVars (scope : RequestedScope) : bool :=
  existsb (RequestedScope_eqb scope) [any; only builds; only post_processing].

(** [getEnvelopeEnv({ api, context = 'dev', env, key = '', scope = 'any',
    siteInfo })]. The two fetches never interfere, so [Promise.all] is the
    first followed by the second. *)
Definition getEnvelopeEnv (api : Api) (context : option string)
    (env : obj EnvVar) (key : option string) (scope : option RequestedScope)
    (siteInfo : SiteInfo) : completion (obj EnvVar) :=
  let context := default "dev" context in
  let key := default "" key in
  let scope := default any scope in
  let accountId := account_slug siteInfo in
  let siteId := id siteInfo in
  accountEnvelopeItems <- fetchEnvelopeItems accountId api key None ;;
  siteEnvelopeItems <- fetchEnvelopeItems accountId api key siteId ;;
  accountEnv <- formatEnvelopeData (Some context) (Some accountEnvelopeItems)
                  (Some scope) account ;;
  siteEnv <- formatEnvelopeData (Some context) (Some siteEnvelopeItems)
               (Some scope) ui ;;
  let generalEnv := filterEnvBySource env general in
  let addonsEnv := filterEnvBySource env addons in
  let configFileEnv := filterEnvBySource env configFile in
  let include := includeConfigEnvVars scope in
  Return
    (obj_assign
       (obj_assign
          (obj_assign
             (obj_assign (obj_assign [] generalEnv) accountEnv)
             (if include then addonsEnv else []))
          siteEnv)
       (if include then configFileEnv else [])).

Definition HUMAN_SCOPES : list (Scope * string) :=
  [ (builds, "Builds"); (functions, "Functions");
    (post_processing, "Post processing"); (runtime, "Runtime") ].

Definition humanScope (scope : Scope) : option string :=
  option_map snd (find (fun entry => Scope_eqb (fst entry) scope) HUMAN_SCOPES).

Definition getHumanReadableScopes (scopes : option (list Scope)) : string :=
  match scopes with
  | None => "Builds, Post processing"
  | Some scopes =>
      if Nat.eqb (List.length scopes) (List.length HUMAN_SCOPES)
      then "All"
      else join ", " (map humanScope scopes)
  end.

(** The callback of the [map] in [translateFromMongoToEnvelope]. *)
Definition toEnvelopeItem (entry : string * string) : EnvelopeItem :=
  {| item_key := fst entry;
     item_scopes := AVAILABLE_SCOPES;
     item_values :=
       [ {| val_context := "all";
            val_context_parameter := None;
            val_value := snd entry |} ] |}.

(** [translateFromMongoToEnvelope(env = {})] *)
Definition translateFromMongoToEnvelope (env : option (obj string))
  : list EnvelopeItem :=
  map toEnvelopeItem (entries (default [] env)).

(** [val.context_parameter || val.context] *)
Definition contextOf (val : EnvelopeValue) : string :=
  match val_context_parameter val with
  | Some parameter => if String.eqb parameter "" then val_context val else parameter
  | None => val_context val
  end.

(** The callback of the [reduce] in [translateFromEnvelopeToMongo]:
    [envVar && envVar.value] holds for a value that was found and is not
    the empty string. *)
Definition toMongoStep (context : string) (acc : obj string) (cur : EnvelopeItem)
  : obj string :=
  match find (fun val => includes (contextOf val) [context; "all"])
             (item_values cur) with
  | Some envVar =>
      if negb (String.eqb (val_value envVar) "")
      then obj_set (item_key cur) (val_value envVar) (obj_assign [] acc)
      else acc
  | None => acc
  end.

(** [translateFromEnvelopeToMongo(envVars = [], context = 'dev')] *)
Definition translateFromEnvelopeToMongo (envVars : option (list EnvelopeItem))
    (context : option string) : obj string :=
  fold_left (toMongoStep (default "dev" context))
    (sort compareKeys (default [] envVars)) [].

(** ** Vocabulary of the properties *)

(** [a] comes no later than [b] in the case-insensitive order of keys. *)
Definition keyOrder (a b : string) : Prop :=
  str_lt (toLowerCase b) (toLowerCase a) = false.

Definition notArrayIndex (k : string) : Prop := array_index k = None.

(** The property read in a stack of layers, the later layers overwriting
    the earlier ones. *)
Definition layered {V : Type} (k : string) (layers : list (obj V)) : option V :=
  fold_left
    (fun found layer =>
       match obj_get k layer with
       | Some v => Some v
       | None => found
       end)
    layers None.

(** The request that [fetchEnvelopeItems] sends for a defined account. *)
Definition request (api : Api) (accountId key : string) (siteId : option string)
  : completion (list EnvelopeItem) :=
  if negb (String.eqb key "")
  then (envelopeItem <- getEnvVar api accountId key siteId ;; Return [envelopeItem])
  else getEnvVars api accountId siteId.

(** Two objects hold the same properties with the same values. *)
Definition sameMapping {V : Type} (a b : obj V) : Prop :=
  forall k, obj_get k a = obj_get k b.

(** The round trip of the legacy translators at context ['all']. *)
Definition roundTrip (M : obj string) : obj string :=
  translateFromEnvelopeToMongo (Some (translateFromMongoToEnvelope (Some M)))
    (Some "all").

(** The rendering that lists the labels in the declared order of the
    enumeration, whatever the order of the argument. *)
Definition labelsInDeclaredOrder (scopes : list Scope) : string :=
  join ", "
    (map humanScope
       (filter (fun s => existsb (Scope_eqb s) scopes) AVAILABLE_SCOPES)).

(** *** Sample data *)

Definition allValue (v : string) : EnvelopeValue :=
  {| val_context := "all"; val_context_parameter := None; val_value := v |}.

Definition sampleItem (k ctx v : string) : EnvelopeItem :=
  {| item_key := k;
     item_scopes := AVAILABLE_SCOPES;
     item_values :=
       [ {| val_context := ctx; val_context_parameter := None; val_value := v |} ] |}.

Definition localVar (source : Source) (v : string) : EnvVar :=
  {| var_context := None; var_branch := None; var_scopes := None;
     var_sources := [source]; var_value := v |}.

(** A store whose every call fails the same way. *)
Definition failingApi (failure : ApiFailure) : Api :=
  {| getEnvVar := fun _ _ _ => Throw (ApiError failure);
     getEnvVars := fun _ _ => Throw (ApiError failure) |}.

(** A store that answers the account-level request with [accountItems]
    and the site-level request with [siteItems]. *)
Definition listApi (accountItems siteItems : list EnvelopeItem) : Api :=
  {| getEnvVar := fun _ _ _ => Throw (ApiError server_error);
     getEnvVars := fun _ siteId =>
       match siteId with
       | None => Return accountItems
       | Some _ => Return siteItems
       end |}.

Definition site (accountId : option string) : SiteInfo :=
  {| account_slug := accountId; id := Some "site-1" |}.

(** [Resolves ... accountEnv siteEnv m]: for a defined account, both
    fetches resolve to arrays, the formatter turns them into [accountEnv]
    and [siteEnv], and the resolution returns [m]. *)
Definition Resolves (api : Api) (context : option string) (env : obj EnvVar)
    (key : option string) (scope : option RequestedScope)
    (accountId : string) (siteId : option string)
    (accountEnv siteEnv m : obj EnvVar) : Prop :=
  exists accountItems siteItems,
    fetchEnvelopeItems (Some accountId) api (default "" key) None
      = Return (Items accountItems) /\
    fetchEnvelopeItems (Some accountId) api (default "" key) siteId
      = Return (Items siteItems) /\
    formatEnvelopeData (Some (default "dev" context)) (Some (Items accountItems))
      (Some (default any scope)) account = Return accountEnv /\
    formatEnvelopeData (Some (default "dev" context)) (Some (Items siteItems))
      (Some (default any scope)) ui = Return siteEnv /\
    (forall k, ~ In k (map item_key accountItems) -> obj_get k accountEnv = None) /\
    (forall k, ~ In k (map item_key siteItems) -> obj_get k siteEnv = None) /\
    getEnvelopeEnv api context env key scope
      {| account_slug := Some accountId; id := siteId |} = Return m.

(** The sources of a resolution, in ascending order of precedence. *)
Definition precedence (scope : RequestedScope) (env accountEnv siteEnv : obj EnvVar)
  : list (obj EnvVar) :=
  [ filterEnvBySource env general;
    accountEnv;
    if includeConfigEnvVars scope then filterEnvBySource env addons else [];
    siteEnv;
    if includeConfigEnvVars scope then filterEnvBySource env configFile else [] ].

(** ** Vocabulary of the further properties *)

(** The record that the formatter builds from an item and its selected
    value. *)
Definition resolvedVariable (source : Source) (item : EnvelopeItem)
    (val : EnvelopeValue) : EnvVar :=
  {| var_context := Some (val_context val);
     var_branch := val_context_parameter val;
     var_scopes := Some (item_scopes item);
     var_sources := [source];
     var_value := val_value val |}.

(** The scope filter of the formatter. *)
Definition inScope (scope : RequestedScope) (item : EnvelopeItem) : bool :=
  match scope with
  | any => true
  | only s => existsb (Scope_eqb s) (item_scopes item)
  end.

(** What an item is formatted to, when it passes both filters. *)
Definition formatsTo (context : string) (scope : RequestedScope)
    (source : Source) (item : EnvelopeItem) : option EnvVar :=
  match findValueInValues (item_values item) context with
  | Some val =>
      if inScope scope item then Some (resolvedVariable source item val)
      else None
  | None => None
  end.

(** The last item of a list that has the key [k]. *)
Fixpoint lastWithKey (k : string) (l : list EnvelopeItem) : option EnvelopeItem :=
  match l with
  | [] => None
  | item :: rest =>
      match lastWithKey k rest with
      | Some later => Some later
      | None => if String.eqb (item_key item) k then Some item else None
      end
  end.

(** A value applies to a requested context: for one of the enumerated
    contexts it is tagged with that context or with ['all']; for a branch
    name it is tagged ['branch'] or ['all'] and carries the branch as its
    parameter. *)
Definition applies (context : string) (val : EnvelopeValue) : Prop :=
  if includes context AVAILABLE_CONTEXTS
  then val_context val = context \/ val_context val = "all"
  else (val_context val = "branch" \/ val_context val = "all")
       /\ val_context_parameter val = Some context.

(** What an item contributes to the flat mapping: the value found for
    the context, unless it is the empty string. *)
Definition flatValue (context : string) (item : EnvelopeItem) : option string :=
  match find (fun val => includes (contextOf val) [context; "all"])
             (item_values item) with
  | Some envVar =>
      if negb (String.eqb (val_value envVar) "") then Some (val_value envVar)
      else None
  | None => None
  end.

(** The contribution of the last item with key [k] that contributes. *)
Fixpoint lastFlat (context k : string) (l : list EnvelopeItem) : option string :=
  match l with
  | [] => None
  | item :: rest =>
      match lastFlat context k rest with
      | Some v => Some v
      | None => if String.eqb (item_key item) k then flatValue context item else None
      end
  end.

(** A flat value without the empty string. *)
Definition nonEmpty (v : option string) : option string :=
  match v with
  | Some s => if String.eqb s "" then None else Some s
  | None => None
  end.

(** The record of a legacy variable after the forward translation and
    the formatter. *)
Definition legacyVariable (source : Source) (v : string) : EnvVar :=
  {| var_context := Some "all";
     var_branch := None;
     var_scopes := Some AVAILABLE_SCOPES;
     var_sources := [source];
     var_value := v |}.

(** A string of ASCII characters. *)
Definition isAscii (s : string) : bool :=
  forallb (fun c => (N_of_ascii c <? 128)%N) (list_ascii_of_string s).

Definition asciiKey (k : string) : Prop := isAscii k = true.

(** An entry of the local mapping that belongs to one of the three parts
    the merger reads. *)
Definition localRecord (env : obj EnvVar) (k : string) (variable : EnvVar) : Prop :=
  In (k, variable) env /\
  (fromSource general variable = true \/
   fromSource addons variable = true \/
   fromSource configFile variable = true).

(** A record formatted, for the account or for the site, from an item
    with key [k] whose selected value applies to [context]. *)
Definition remoteRecord (context k : string) (variable : EnvVar) : Prop :=
  exists item val source,
    (source = account \/ source = ui) /\
    item_key item = k /\
    findValueInValues (item_values item) context = Some val /\
    applies context val /\
    variable = resolvedVariable source item val.
(** ** Facts about plain objects *)

Section ObjectFacts.

Context {V : Type}.
Implicit Types (o s t : obj V) (k : string) (v : V).

Lemma obj_has_get k o : obj_has k o = false <-> obj_get k o = None.
Proof. unfold obj_has. destruct (obj_get k o); split; congruence. Qed.

Lemma obj_get_none_iff k o : obj_get k o = None <-> ~ In k (keys o).
Proof.
  induction o as [|[k' v'] o IH]; simpl.
  - tauto.
  - destruct (String.eqb_spec k k') as [->|Hne].
    + split; [discriminate | intros H; exfalso; apply H; now left].
    + rewrite IH. split; intros H; [intros [E|I]; [congruence | tauto] | tauto].
Qed.

Lemma obj_get_in k v o : obj_get k o = Some v -> In (k, v) o.
Proof.
  induction o as [|[k' v'] o IH]; simpl; [discriminate|].
  destruct (String.eqb_spec k k') as [->|Hne].
  - intros [= ->]. now left.
  - intros H. right. auto.
Qed.

Lemma in_keys k v o : In (k, v) o -> In k (keys o).
Proof. intros H. apply (in_map fst) in H. exact H. Qed.

Lemma in_obj_get k v o : NoDup (keys o) -> In (k, v) o -> obj_get k o = Some v.
Proof.
  induction o as [|[k' v'] o IH]; simpl; [tauto|].
  intros Hnd [E|I].
  - injection E as -> ->. now rewrite String.eqb_refl.
  - inversion Hnd as [|? ? Hni Hnd']; subst.
    destruct (String.eqb_spec k k') as [->|Hne].
    + exfalso. apply Hni. eapply in_keys; eauto.
    + auto.
Qed.

Lemma obj_get_app k s t :
  obj_get k (s ++ t) =
  match obj_get k s with Some v => Some v | None => obj_get k t end.
Proof.
  induction s as [|[k' v'] s IH]; simpl; [reflexivity|].
  destruct (String.eqb k k'); auto.
Qed.

Lemma keys_replace k v o : keys (obj_replace k v o) = keys o.
Proof.
  induction o as [|[k' v'] o IH]; simpl; [reflexivity|].
  destruct (String.eqb_spec k k') as [->|Hne]; simpl; [reflexivity|].
  f_equal. exact IH.
Qed.

Lemma obj_get_replace k k' v o :
  obj_has k' o = true ->
  obj_get k (obj_replace k' v o) = if String.eqb k k' then Some v else obj_get k o.
Proof.
  unfold obj_has.
  induction o as [|[k1 v1] o IH]; simpl; [discriminate|].
  destruct (String.eqb_spec k' k1) as [->|Hne]; simpl.
  - intros _. destruct (String.eqb k k1); reflexivity.
  - intros H. rewrite (IH H).
    destruct (String.eqb_spec k k1) as [->|Hne1]; [|reflexivity].
    destruct (String.eqb_spec k1 k'); congruence.
Qed.

Lemma insert_index_perm i k v o :
  Permutation (obj_insert_index i k v o) ((k, v) :: o).
Proof.
  induction o as [|[k' v'] o IH]; simpl; [reflexivity|].
  destruct (array_index k'); [destruct (i <? n)%N|]; try reflexivity.
  rewrite IH. apply perm_swap.
Qed.

Lemma obj_get_insert_index i k k' v o :
  obj_get k' o = None ->
  obj_get k (obj_insert_index i k' v o) =
  if String.eqb k k' then Some v else obj_get k o.
Proof.
  induction o as [|[k1 v1] o IH]; simpl.
  - intros _. reflexivity.
  - destruct (String.eqb_spec k' k1) as [->|Hne]; [discriminate|].
    intros H.
    destruct (array_index k1); [destruct (i <? n)%N|]; simpl;
      try reflexivity.
    rewrite (IH H).
    destruct (String.eqb_spec k k1) as [->|Hne1]; [|reflexivity].
    destruct (String.eqb_spec k1 k'); congruence.
Qed.

Lemma obj_get_set k k' v o :
  obj_get k (obj_set k' v o) = if String.eqb k k' then Some v else obj_get k o.
Proof.
  unfold obj_set. destruct (obj_has k' o) eqn:Hhas.
  - now apply obj_get_replace.
  - apply obj_has_get in Hhas.
    destruct (array_index k').
    + now apply obj_get_insert_index.
    + rewrite obj_get_app. simpl.
      destruct (String.eqb_spec k k') as [->|Hne].
      * now rewrite Hhas.
      * destruct (obj_get k o); reflexivity.
Qed.

Lemma keys_set_perm k v o :
  obj_has k o = false -> Permutation (obj_set k v o) ((k, v) :: o).
Proof.
  unfold obj_set. intros ->. destruct (array_index k).
  - apply insert_index_perm.
  - symmetry. apply Permutation_cons_append.
Qed.

Lemma nodup_keys_set k v o : NoDup (keys o) -> NoDup (keys (obj_set k v o)).
Proof.
  intros Hnd. destruct (obj_has k o) eqn:Hhas.
  - unfold obj_set. rewrite Hhas, keys_replace. exact Hnd.
  - eapply Permutation_NoDup.
    + symmetry. apply Permutation_map. apply keys_set_perm. exact Hhas.
    + simpl. constructor; [|exact Hnd].
      apply obj_get_none_iff. now apply obj_has_get.
Qed.

Lemma nodup_keys_assign t s : NoDup (keys t) -> NoDup (keys (obj_assign t s)).
Proof.
  unfold obj_assign. revert t.
  induction s as [|[k v] s IH]; simpl; intros t Hnd; [exact Hnd|].
  apply IH. now apply nodup_keys_set.
Qed.

Lemma obj_get_assign_rev k t s :
  obj_get k (obj_assign t s) =
  match obj_get k (rev s) with Some v => Some v | None => obj_get k t end.
Proof.
  unfold obj_assign. revert t.
  induction s as [|[k' v'] s IH]; simpl; intros t; [reflexivity|].
  rewrite IH, obj_get_app, obj_get_set. simpl.
  destruct (obj_get k (rev s)); [reflexivity|].
  destruct (String.eqb k k'); reflexivity.
Qed.

Lemma obj_get_perm k o o' :
  NoDup (keys o) -> Permutation o o' -> obj_get k o = obj_get k o'.
Proof.
  intros Hnd Hp.
  assert (Hnd' : NoDup (keys o')).
  { eapply Permutation_NoDup; [apply Permutation_map; exact Hp | exact Hnd]. }
  destruct (obj_get k o) as [v|] eqn:E.
  - symmetry. apply in_obj_get; [exact Hnd'|].
    eapply Permutation_in; [exact Hp|]. now apply obj_get_in.
  - symmetry. apply obj_get_none_iff. apply obj_get_none_iff in E.
    intros Hin. apply E. eapply Permutation_in; [|exact Hin].
    symmetry. now apply Permutation_map.
Qed.

Lemma obj_get_rev k o : NoDup (keys o) -> obj_get k (rev o) = obj_get k o.
Proof.
  intros Hnd. symmetry. apply obj_get_perm; [exact Hnd|]. apply Permutation_rev.
Qed.

(** Spreading a source with distinct keys: the source wins, key by key. *)
Lemma obj_get_assign k t s :
  NoDup (keys s) ->
  obj_get k (obj_assign t s) =
  match obj_get k s with Some v => Some v | None => obj_get k t end.
Proof. intros Hnd. now rewrite obj_get_assign_rev, obj_get_rev. Qed.

Lemma obj_get_spread k o :
  NoDup (keys o) -> obj_get k (obj_assign [] o) = obj_get k o.
Proof.
  intros Hnd. rewrite obj_get_assign by exact Hnd.
  destruct (obj_get k o); reflexivity.
Qed.

(** Two objects with the same properties list the same entries. *)
Lemma obj_ext_perm o o' :
  NoDup (keys o) -> NoDup (keys o') ->
  (forall k, obj_get k o = obj_get k o') -> Permutation o o'.
Proof.
  intros Hnd Hnd' Hget.
  apply NoDup_Permutation.
  - eapply NoDup_map_inv. exact Hnd.
  - eapply NoDup_map_inv. exact Hnd'.
  - intros [k v]. split; intros Hin.
    + apply obj_get_in. rewrite <- Hget. now apply in_obj_get.
    + apply obj_get_in. rewrite Hget. now apply in_obj_get.
Qed.

End ObjectFacts.

(** ** Facts about the order of strings and about [sort] *)

Lemma str_lt_spec a b : str_lt a b = true <-> String_as_OT.lt a b.
Proof.
  unfold str_lt, String_as_OT.lt.
  destruct (String_as_OT.compare a b); split; congruence.
Qed.

Lemma str_lt_irrefl a : str_lt a a = false.
Proof.
  destruct (str_lt a a) eqn:E; [|reflexivity].
  apply str_lt_spec in E. exfalso. exact (StrictOrder_Irreflexive a E).
Qed.

Lemma str_lt_trans a b c :
  str_lt a b = true -> str_lt b c = true -> str_lt a c = true.
Proof.
  rewrite !str_lt_spec. apply (@StrictOrder_Transitive _ _ String_as_OT.lt_strorder).
Qed.

Lemma str_lt_asym a b : str_lt a b = true -> str_lt b a = false.
Proof.
  intros H. destruct (str_lt b a) eqn:E; [|reflexivity].
  pose proof (str_lt_trans _ _ _ H E) as Haa.
  rewrite str_lt_irrefl in Haa. discriminate.
Qed.

Lemma str_not_lt a b : str_lt a b = false -> a = b \/ str_lt b a = true.
Proof.
  intros H. destruct (String_as_OT.compare_spec a b) as [E|L|G].
  - now left.
  - apply str_lt_spec in L. congruence.
  - right. now apply str_lt_spec.
Qed.

Lemma keyOrder_refl a : keyOrder a a.
Proof. apply str_lt_irrefl. Qed.

Lemma keyOrder_trans a b c : keyOrder a b -> keyOrder b c -> keyOrder a c.
Proof.
  unfold keyOrder. intros Hab Hbc.
  destruct (str_lt (toLowerCase c) (toLowerCase a)) eqn:Hca; [|reflexivity].
  exfalso.
  destruct (str_not_lt _ _ Hab) as [Eab|Lab], (str_not_lt _ _ Hbc) as [Ebc|Lbc].
  - rewrite Ebc, Eab, str_lt_irrefl in Hca. discriminate.
  - rewrite <- Eab in Hca. apply str_lt_asym in Hca. congruence.
  - rewrite Ebc in Hca. apply str_lt_asym in Hca. congruence.
  - pose proof (str_lt_trans _ _ _ Lab Lbc) as Hac.
    apply str_lt_asym in Hac. congruence.
Qed.

Section SortFacts.

Context {A : Type} (cmp : A -> A -> Z).

Lemma sort_insert_perm x l : Permutation (sort_insert cmp x l) (x :: l).
Proof.
  induction l as [|y l IH]; simpl; [reflexivity|].
  destruct (cmp x y <? 0)%Z; [reflexivity|].
  rewrite IH. apply perm_swap.
Qed.

Lemma sort_perm l : Permutation (sort cmp l) l.
Proof.
  unfold sort.
  assert (G : forall acc, Permutation
            (fold_left (fun sorted x => sort_insert cmp x sorted) l acc) (acc ++ l)).
  { induction l as [|x l IH]; simpl; intros acc.
    - now rewrite app_nil_r.
    - rewrite IH, sort_insert_perm. apply Permutation_middle. }
  apply (G []).
Qed.

(** The comparator decides a transitive order [R]: the result is in that
    order. *)
Variable R : A -> A -> Prop.
Hypothesis R_trans : forall x y z, R x y -> R y z -> R x z.
Hypothesis cmp_below : forall x y, (cmp x y <? 0)%Z = true -> R x y.
Hypothesis cmp_not_below : forall x y, (cmp x y <? 0)%Z = false -> R y x.

Lemma sort_insert_sorted x l :
  StronglySorted R l -> StronglySorted R (sort_insert cmp x l).
Proof.
  induction 1 as [|y l Hs IH Hall]; simpl.
  - repeat constructor.
  - destruct (cmp x y <? 0)%Z eqn:E.
    + constructor; [now constructor|].
      constructor; [now apply cmp_below|].
      eapply Forall_impl; [|exact Hall].
      intros z Hz. eapply R_trans; [apply cmp_below; exact E | exact Hz].
    + constructor; [exact IH|].
      eapply Permutation_Forall; [symmetry; apply sort_insert_perm|].
      constructor; [now apply cmp_not_below | exact Hall].
Qed.

Lemma sort_sorted l : StronglySorted R (sort cmp l).
Proof.
  unfold sort.
  assert (G : forall acc, StronglySorted R acc -> StronglySorted R
            (fold_left (fun sorted x => sort_insert cmp x sorted) l acc)).
  { induction l as [|x l IH]; simpl; intros acc Hacc; [exact Hacc|].
    apply IH. now apply sort_insert_sorted. }
  apply G. constructor.
Qed.

End SortFacts.

Lemma sort_compareKeys_sorted (items : list EnvelopeItem) :
  StronglySorted keyOrder (map item_key (sort compareKeys items)).
Proof.
  pose proof (sort_sorted compareKeys
                (fun a b => keyOrder (item_key a) (item_key b))) as H.
  assert (Hs : StronglySorted (fun a b => keyOrder (item_key a) (item_key b))
                 (sort compareKeys items)).
  { apply H.
    - intros x y z. apply keyOrder_trans.
    - intros x y. unfold compareKeys, keyOrder.
      destruct (str_lt (toLowerCase (item_key x)) (toLowerCase (item_key y))) eqn:E;
        [intros _; now apply str_lt_asym | discriminate].
    - intros x y. unfold compareKeys, keyOrder.
      destruct (str_lt (toLowerCase (item_key x)) (toLowerCase (item_key y))) eqn:E;
        [discriminate | reflexivity]. }
  clear H. induction Hs as [|a l Hs IH Hall]; simpl; constructor.
  - exact IH.
  - apply Forall_map. exact Hall.
Qed.

Lemma StronglySorted_remove {A : Type} (R : A -> A -> Prop) (l1 l2 : list A) (x : A) :
  StronglySorted R (l1 ++ x :: l2) -> StronglySorted R (l1 ++ l2).
Proof.
  induction l1 as [|a l1 IH]; simpl; intros H.
  - now inversion H.
  - inversion H as [|? ? Hs Hall]; subst. constructor; [now apply IH|].
    rewrite Forall_app in *. destruct Hall as [H1 H2].
    split; [exact H1 | now inversion H2].
Qed.

(** ** Facts about the scoped-record formatter *)

Section FormatFacts.

Variables (context : string) (source : Source).

Let selected (item : EnvelopeItem) : Prop :=
  findValueInValues (item_values item) context <> None.

Lemma reduce_formatStep (l : list EnvelopeItem) :
  forall acc,
    Forall selected l ->
    NoDup (keys acc) ->
    exists o,
      reduce (formatStep context source) l acc = Return o /\
      NoDup (keys o) /\
      (forall k, ~ In k (map item_key l) -> obj_get k acc = None ->
                 obj_get k o = None).
Proof.
  induction l as [|cur l IH]; simpl; intros acc Hsel Hnd.
  - exists acc. auto.
  - inversion Hsel as [|? ? Hcur Hrest]; subst.
    unfold formatStep at 1. unfold selected in Hcur.
    destruct (findValueInValues (item_values cur) context) as [val|];
      [|congruence].
    simpl.
    match goal with |- context [reduce _ l ?a] => set (acc' := a) end.
    destruct (IH acc' Hrest) as (o & Ho & Hndo & Hnone).
    { apply nodup_keys_set, nodup_keys_assign. constructor. }
    exists o. split; [exact Ho|]. split; [exact Hndo|].
    intros k Hk Hacc. apply Hnone; [tauto|].
    unfold acc'. rewrite obj_get_set, obj_get_spread by exact Hnd.
    destruct (String.eqb_spec k (item_key cur)) as [E|_];
      [exfalso; apply Hk; left; now symmetry | exact Hacc].
Qed.

Lemma assign_app {V : Type} (s : obj V) :
  forall t, NoDup (keys (t ++ s)) -> Forall notArrayIndex (keys s) ->
            obj_assign t s = t ++ s.
Proof.
  unfold obj_assign.
  induction s as [|[k v] s IH]; simpl; intros t Hnd Hni.
  - now rewrite app_nil_r.
  - inversion Hni as [|? ? Hk Hs]; subst.
    assert (Hset : obj_set k v t = t ++ [(k, v)]).
    { unfold obj_set. unfold notArrayIndex in Hk. rewrite Hk.
      assert (Hhas : obj_has k t = false).
      { apply obj_has_get, obj_get_none_iff.
        unfold keys in Hnd. rewrite map_app in Hnd. simpl in Hnd.
        apply NoDup_remove_2 in Hnd. intros Hin. apply Hnd.
        apply in_or_app. now left. }
      now rewrite Hhas. }
    rewrite Hset, IH.
    + now rewrite <- app_assoc.
    + now rewrite <- app_assoc.
    + exact Hs.
Qed.

Lemma reduce_formatStep_sorted (l : list EnvelopeItem) :
  forall acc,
    Forall selected l ->
    Forall notArrayIndex (map item_key l) ->
    NoDup (keys acc) ->
    Forall notArrayIndex (keys acc) ->
    StronglySorted keyOrder (keys acc ++ map item_key l) ->
    exists o,
      reduce (formatStep context source) l acc = Return o /\
      StronglySorted keyOrder (keys o).
Proof.
  induction l as [|cur l IH]; simpl; intros acc Hsel Hni Hnd Hnia Hsorted.
  - exists acc. rewrite app_nil_r in Hsorted. auto.
  - inversion Hsel as [|? ? Hcur Hrest]; subst.
    inversion Hni as [|? ? Hk Hni']; subst.
    unfold formatStep at 1. unfold selected in Hcur.
    destruct (findValueInValues (item_values cur) context) as [val|];
      [|congruence].
    simpl. rewrite (assign_app acc []) by assumption. simpl.
    match goal with |- context [obj_set ?k ?e acc] =>
      set (acc' := obj_set k e acc) end.
    assert (Hkeys : keys acc' = keys acc /\ obj_has (item_key cur) acc = true \/
                    keys acc' = keys acc ++ [item_key cur]).
    { unfold acc', obj_set. destruct (obj_has (item_key cur) acc) eqn:Hhas.
      - left. split; [apply keys_replace | reflexivity].
      - right. unfold notArrayIndex in Hk. rewrite Hk.
        unfold keys. now rewrite map_app. }
    apply IH; try assumption.
    + unfold acc'. now apply nodup_keys_set.
    + destruct Hkeys as [[-> _]| ->]; [exact Hnia|].
      apply Forall_app. split; [exact Hnia | now constructor].
    + destruct Hkeys as [[-> _]| ->].
      * eapply StronglySorted_remove. exact Hsorted.
      * now rewrite <- app_assoc.
Qed.

End FormatFacts.

Lemma findValueInValues_selected items context :
  Forall (fun item => findValueInValues (item_values item) context <> None)
    (filter (fun item =>
               match findValueInValues (item_values item) context with
               | Some _ => true
               | None => false
               end) items).
Proof.
  apply Forall_forall. intros item Hin. apply filter_In in Hin.
  destruct Hin as [_ H].
  destruct (findValueInValues (item_values item) context); congruence.
Qed.

(** On an array of items the formatter returns an object; its keys are
    keys of the items. *)
Lemma formatEnvelopeData_items context items scope source :
  exists o,
    formatEnvelopeData context (Some (Items items)) scope source = Return o /\
    NoDup (keys o) /\
    (forall k, ~ In k (map item_key items) -> obj_get k o = None).
Proof.
  unfold formatEnvelopeData. simpl.
  set (ctx := default "dev" context).
  set (byContext := filter _ items).
  set (byScope := filter _ byContext).
  destruct (reduce_formatStep ctx source (sort compareKeys byScope) [])
    as (o & Ho & Hnd & Hnone).
  - eapply Permutation_Forall; [symmetry; apply sort_perm|].
    apply Forall_forall. intros item Hin.
    apply filter_In in Hin. destruct Hin as [Hin _].
    pose proof (findValueInValues_selected items ctx) as Hsel.
    rewrite Forall_forall in Hsel. now apply Hsel.
  - constructor.
  - exists o. split; [exact Ho|]. split; [exact Hnd|].
    intros k Hk. apply Hnone; [|reflexivity].
    intros Hin. apply Hk.
    apply in_map_iff in Hin. destruct Hin as (item & <- & Hin).
    apply in_map.
    eapply Permutation_in in Hin; [|apply sort_perm].
    apply filter_In in Hin. destruct Hin as [Hin _].
    apply filter_In in Hin. tauto.
Qed.

(** Keys that are not array indices come out in the order of the sort. *)
Lemma formatEnvelopeData_sorted context items scope source :
  Forall notArrayIndex (map item_key items) ->
  exists o,
    formatEnvelopeData context (Some (Items items)) scope source = Return o /\
    StronglySorted keyOrder (keys o).
Proof.
  intros Hni. unfold formatEnvelopeData. simpl.
  set (ctx := default "dev" context).
  set (byContext := filter _ items).
  set (byScope := filter _ byContext).
  assert (Hsub : forall item, In item (sort compareKeys byScope) ->
                              In item byContext /\ In item items).
  { intros item Hin. eapply Permutation_in in Hin; [|apply sort_perm].
    apply filter_In in Hin. destruct Hin as [Hin _]. split; [exact Hin|].
    apply filter_In in Hin. tauto. }
  apply reduce_formatStep_sorted.
  - apply Forall_forall. intros item Hin.
    pose proof (findValueInValues_selected items ctx) as Hsel.
    rewrite Forall_forall in Hsel. apply Hsel. now apply Hsub.
  - apply Forall_forall. intros k Hin.
    apply in_map_iff in Hin. destruct Hin as (item & <- & Hin).
    rewrite Forall_forall in Hni. apply Hni. apply in_map. now apply Hsub.
  - constructor.
  - constructor.
  - simpl. apply sort_compareKeys_sorted.
Qed.

(** ** Facts about the fetches and the merge *)

Lemma fetchEnvelopeItems_defined a api key siteId :
  fetchEnvelopeItems (Some a) api key siteId =
  Return (Items match request api a key siteId with
                | Return items => items
                | Throw _ => []
                end).
Proof.
  unfold fetchEnvelopeItems, request.
  destruct (negb (String.eqb key "")); simpl.
  - destruct (getEnvVar api a key siteId); reflexivity.
  - destruct (getEnvVars api a siteId); reflexivity.
Qed.

Lemma filterEnvBySource_nodup env source :
  NoDup (keys (filterEnvBySource env source)).
Proof. apply nodup_keys_assign. constructor. Qed.

Lemma obj_get_filter {V : Type} (p : string * V -> bool) (o : obj V) k :
  NoDup (keys o) ->
  obj_get k (filter p o) =
  match obj_get k o with
  | Some v => if p (k, v) then Some v else None
  | None => None
  end.
Proof.
  induction o as [|[k' v'] o IH]; simpl; intros Hnd; [reflexivity|].
  inversion Hnd as [|? ? Hni Hnd']; subst.
  destruct (String.eqb_spec k k') as [->|Hne].
  - destruct (p (k', v')) eqn:Hp; simpl.
    + now rewrite String.eqb_refl.
    + apply obj_get_none_iff. intros Hin. apply Hni.
      unfold keys in Hin. apply in_map_iff in Hin.
      destruct Hin as ([k1 v1] & <- & Hin). apply filter_In in Hin.
      destruct Hin as [Hin _]. apply (in_map fst) in Hin. exact Hin.
  - destruct (p (k', v')); simpl.
    + destruct (String.eqb_spec k k'); [congruence | now apply IH].
    + now apply IH.
Qed.

Lemma keys_filter_nodup {V : Type} (p : string * V -> bool) (o : obj V) :
  NoDup (keys o) -> NoDup (keys (filter p o)).
Proof.
  induction o as [|[k v] o IH]; simpl; intros Hnd; [constructor|].
  inversion Hnd as [|? ? Hni Hnd']; subst.
  destruct (p (k, v)); simpl; [|now apply IH].
  constructor; [|now apply IH].
  intros Hin. apply Hni. unfold keys in Hin. apply in_map_iff in Hin.
  destruct Hin as ([k1 v1] & <- & Hin). apply filter_In in Hin.
  destruct Hin as [Hin _]. apply (in_map fst) in Hin. exact Hin.
Qed.

(** The source partitioner keeps exactly the entries whose first source
    is the requested one. *)
Lemma filterEnvBySource_get env source k :
  NoDup (keys env) ->
  obj_get k (filterEnvBySource env source) =
  match obj_get k env with
  | Some variable => if fromSource source variable then Some variable else None
  | None => None
  end.
Proof.
  intros Hnd. unfold filterEnvBySource, fromEntries, entries.
  rewrite obj_get_spread by (now apply keys_filter_nodup).
  now rewrite obj_get_filter.
Qed.

Lemma gated_nodup (b : bool) (o : obj EnvVar) :
  NoDup (keys o) -> NoDup (keys (if b then o else [])).
Proof. destruct b; [auto | constructor]. Qed.

(** For a defined account the resolution returns, and what it returns is
    the stack of its five sources. *)
Lemma getEnvelopeEnv_defined api context env key scope a siteId :
  exists accountEnv siteEnv m,
    Resolves api context env key scope a siteId accountEnv siteEnv m /\
    forall k, obj_get k m =
              layered k (precedence (default any scope) env accountEnv siteEnv).
Proof.
  set (ky := default "" key).
  set (accountItems := match request api a ky None with
                       | Return items => items | Throw _ => [] end).
  set (siteItems := match request api a ky siteId with
                    | Return items => items | Throw _ => [] end).
  destruct (formatEnvelopeData_items (Some (default "dev" context)) accountItems
              (Some (default any scope)) account) as (accountEnv & Ha & Hnda & Hka).
  destruct (formatEnvelopeData_items (Some (default "dev" context)) siteItems
              (Some (default any scope)) ui) as (siteEnv & Hs & Hnds & Hks).
  set (include := includeConfigEnvVars (default any scope)).
  exists accountEnv, siteEnv,
    (obj_assign
       (obj_assign
          (obj_assign
             (obj_assign (obj_assign [] (filterEnvBySource env general)) accountEnv)
             (if include then filterEnvBySource env addons else []))
          siteEnv)
       (if include then filterEnvBySource env configFile else [])).
  split.
  - exists accountItems, siteItems.
    split; [apply fetchEnvelopeItems_defined|].
    split; [apply fetchEnvelopeItems_defined|].
    split; [exact Ha|]. split; [exact Hs|].
    split; [exact Hka|]. split; [exact Hks|].
    unfold getEnvelopeEnv. simpl account_slug. simpl id. fold ky.
    rewrite !fetchEnvelopeItems_defined. fold accountItems siteItems.
    simpl bind. rewrite Ha. simpl bind. rewrite Hs. simpl bind. reflexivity.
  - intros k. unfold precedence, layered. simpl fold_left.
    rewrite !obj_get_assign;
      auto using filterEnvBySource_nodup, gated_nodup.
Qed.

(** ** The legacy translators *)

Lemma toMongoStep_legacy (acc : obj string) (entry : string * string) :
  snd entry <> "" ->
  toMongoStep "all" acc (toEnvelopeItem entry) =
  obj_set (fst entry) (snd entry) (obj_assign [] acc).
Proof.
  intros Hv. unfold toMongoStep, toEnvelopeItem. simpl.
  destruct (String.eqb_spec (snd entry) ""); [contradiction | reflexivity].
Qed.

Lemma fold_toMongoStep_legacy (l : list (string * string)) :
  forall acc,
    NoDup (keys acc) ->
    Forall (fun entry => snd entry <> "") l ->
    NoDup (keys (fold_left (toMongoStep "all") (map toEnvelopeItem l) acc)) /\
    forall k,
      obj_get k (fold_left (toMongoStep "all") (map toEnvelopeItem l) acc) =
      match obj_get k (rev l) with
      | Some v => Some v
      | None => obj_get k acc
      end.
Proof.
  induction l as [|[k1 v1] l IH]; simpl map; simpl fold_left; intros acc Hnd Hall.
  - split; [exact Hnd | reflexivity].
  - inversion Hall as [|? ? Hv Hrest]; subst.
    rewrite toMongoStep_legacy by exact Hv. simpl fst. simpl snd.
    destruct (IH (obj_set k1 v1 (obj_assign [] acc))) as [Hnd' Hget].
    + apply nodup_keys_set, nodup_keys_assign. constructor.
    + exact Hrest.
    + split; [exact Hnd'|]. intros k. rewrite Hget. simpl rev.
      rewrite obj_get_app, obj_get_set, obj_get_spread by exact Hnd. simpl.
      destruct (obj_get k (rev l)); [reflexivity|].
      destruct (String.eqb k k1); reflexivity.
Qed.

(** C1, as stated, fails: a variable whose value is the empty string does
    not survive the round trip. *)
Lemma roundTrip_drops_empty_value :
  ~ sameMapping (roundTrip [("A", "")]) [("A", "")].
Proof.
  intros H. specialize (H "A"). vm_compute in H. discriminate H.
Qed.

(** C1 (amended): for every flat mapping whose values are all non-empty,
    translating flat-to-structured and back with context ['all'] gives a
    mapping with the same key set and the same values. *)
Theorem roundTrip_nonempty_values (M : obj string) :
  NoDup (keys M) ->
  (forall k v, In (k, v) M -> v <> "") ->
  sameMapping (roundTrip M) M /\ Permutation (roundTrip M) M.
Proof.
  intros Hnd Hvalues.
  unfold roundTrip, translateFromEnvelopeToMongo, translateFromMongoToEnvelope.
  simpl default. unfold entries.
  destruct (Permutation_map_inv _ _ (sort_perm compareKeys (map toEnvelopeItem M)))
    as (M' & -> & Hperm).
  assert (HndM' : NoDup (keys M')).
  { eapply Permutation_NoDup; [apply Permutation_map; exact Hperm | exact Hnd]. }
  destruct (fold_toMongoStep_legacy M' []) as [HndR Hget].
  - constructor.
  - apply Forall_forall. intros [k v] Hin. simpl. apply (Hvalues k).
    eapply Permutation_in; [symmetry; exact Hperm | exact Hin].
  - assert (Hsame : sameMapping (fold_left (toMongoStep "all")
                                   (map toEnvelopeItem M') []) M).
    { intros k. rewrite Hget, obj_get_rev by exact HndM'. simpl.
      rewrite (obj_get_perm k M M') by assumption.
      destruct (obj_get k M'); reflexivity. }
    split; [exact Hsame|]. now apply obj_ext_perm.
Qed.

Lemma roundTrip_nonempty_values_witness :
  sameMapping (roundTrip [("b", "1"); ("A", "2"); ("10", "3")])
    [("b", "1"); ("A", "2"); ("10", "3")] /\
  Permutation (roundTrip [("b", "1"); ("A", "2"); ("10", "3")])
    [("b", "1"); ("A", "2"); ("10", "3")].
Proof.
  apply (roundTrip_nonempty_values [("b", "1"); ("A", "2"); ("10", "3")]).
  - repeat constructor; simpl; intuition discriminate.
  - simpl. intros k v [E|[E|[E|[]]]]; injection E as <- <-; discriminate.
Defined.

(** ** An undefined account *)

(** C2: with an undefined account no request is sent, each fetch resolves
    to the empty object literal, and the resolution throws a [TypeError]
    where the specification promises the locally-known sources. *)
Theorem undefined_account_throws api context env key scope siteId :
  fetchEnvelopeItems None api (default "" key) None = Return EmptyObject /\
  fetchEnvelopeItems None api (default "" key) siteId = Return EmptyObject /\
  getEnvelopeEnv api context env key scope
    {| account_slug := None; id := siteId |} = Throw TypeError.
Proof. repeat split. Qed.

(** ** Failing fetches *)

(** C3, as stated, fails: a network failure is not propagated, it is
    swallowed like a permission failure. *)
Lemma network_failure_not_propagated :
  request (failingApi network) "acct" "" None = Throw (ApiError network) /\
  fetchEnvelopeItems (Some "acct") (failingApi network) "" None
    <> Throw (ApiError network) /\
  getEnvelopeEnv (failingApi network) None [] None None (site (Some "acct"))
    <> Throw (ApiError network).
Proof. repeat split; vm_compute; discriminate. Qed.

Lemma formatEnvelopeData_no_items context scope source :
  formatEnvelopeData context (Some (Items [])) scope source = Return [].
Proof. reflexivity. Qed.

(** C3 (amended): a failure of a remote fetch, of whatever class, is
    swallowed and treated as an empty result set; the resolution still
    succeeds and returns the merge of the remaining sources. *)
Theorem fetch_failure_swallowed api context env key scope a siteId
    (fetchSite : option string) (e : exn) :
  request api a (default "" key) fetchSite = Throw e ->
  fetchEnvelopeItems (Some a) api (default "" key) fetchSite = Return (Items []) /\
  exists accountEnv siteEnv m,
    Resolves api context env key scope a siteId accountEnv siteEnv m /\
    (fetchSite = None -> accountEnv = []) /\
    (fetchSite = siteId -> siteEnv = []) /\
    forall k, obj_get k m =
              layered k (precedence (default any scope) env accountEnv siteEnv).
Proof.
  intros Hfail.
  assert (Hfetch : fetchEnvelopeItems (Some a) api (default "" key) fetchSite
                   = Return (Items [])).
  { rewrite fetchEnvelopeItems_defined, Hfail. reflexivity. }
  split; [exact Hfetch|].
  destruct (getEnvelopeEnv_defined api context env key scope a siteId)
    as (accountEnv & siteEnv & m & Hres & Hget).
  exists accountEnv, siteEnv, m. split; [exact Hres|].
  destruct Hres as (accountItems & siteItems & Hfa & Hfs & Ha & Hs & _).
  split; [|split; [|exact Hget]].
  - intros ->. rewrite Hfetch in Hfa. injection Hfa as <-.
    rewrite formatEnvelopeData_no_items in Ha. congruence.
  - intros ->. rewrite Hfetch in Hfs. injection Hfs as <-.
    rewrite formatEnvelopeData_no_items in Hs. congruence.
Qed.

Lemma fetch_failure_swallowed_witness :
  fetchEnvelopeItems (Some "acct") (failingApi forbidden) (default "" None) None
    = Return (Items []) /\
  exists accountEnv siteEnv m,
    Resolves (failingApi forbidden) None [("A", localVar general "1")] None None
      "acct" (Some "site-1") accountEnv siteEnv m /\
    (@None string = None -> accountEnv = []) /\
    (None = Some "site-1" -> siteEnv = []) /\
    forall k, obj_get k m =
              layered k (precedence (default any None)
                           [("A", localVar general "1")] accountEnv siteEnv).
Proof.
  apply (fetch_failure_swallowed (failingApi forbidden) None
           [("A", localVar general "1")] None None "acct" (Some "site-1")
           None (ApiError forbidden)).
  reflexivity.
Defined.

(** ** The value selector *)

(** C4: a value tagged ['all'] is selected for the five enumerated
    contexts only; for a branch name such as ['staging'] nothing is
    selected, where the specification promises the ['all'] value. *)
Theorem all_value_not_selected_for_branch :
  (forall v context,
     findValueInValues [allValue v] context =
     if includes context AVAILABLE_CONTEXTS then Some (allValue v) else None) /\
  findValueInValues [allValue "v"] "staging" = None.
Proof.
  split; [|reflexivity].
  intros v context. unfold findValueInValues.
  cbn [find allValue val_context val_context_parameter].
  destruct (includes context AVAILABLE_CONTEXTS); cbn [negb].
  - unfold includes. cbn [existsb]. rewrite String.eqb_refl.
    destruct (String.eqb "all" context); reflexivity.
  - rewrite andb_false_r. reflexivity.
Qed.

(** ** Normalization of the context *)

(** C5, as stated, fails: the merger matches on the context as it is
    given, so ['prod'] is taken for a branch name and a value tagged
    ['production'] is not selected. *)
Lemma merger_does_not_normalize :
  getEnvelopeEnv (listApi [sampleItem "A" "production" "1"] []) (Some "prod")
    [] None None (site (Some "acct"))
  <> getEnvelopeEnv (listApi [sampleItem "A" "production" "1"] []) (Some "production")
       [] None None (site (Some "acct")).
Proof. vm_compute. discriminate. Qed.

(** ** Precedence of the sources *)

Lemma layered_precedence k scope env accountEnv siteEnv :
  layered k (precedence scope env accountEnv siteEnv) =
  match obj_get k (if includeConfigEnvVars scope
                   then filterEnvBySource env configFile else []) with
  | Some v => Some v
  | None =>
      match obj_get k siteEnv with
      | Some v => Some v
      | None =>
          match obj_get k (if includeConfigEnvVars scope
                           then filterEnvBySource env addons else []) with
          | Some v => Some v
          | None =>
              match obj_get k accountEnv with
              | Some v => Some v
              | None => obj_get k (filterEnvBySource env general)
              end
          end
      end
  end.
Proof.
  unfold layered, precedence. cbn [fold_left].
  destruct (obj_get k (filterEnvBySource env general)); reflexivity.
Qed.

(** C6: the resolution is the stack general, account, addons (when
    included), ui, configFile (when included), a later source overwriting
    an earlier one key by key; with general = {A:1}, account = {A:2},
    ui = {A:3} and scope ['any'] the value of A is 3. *)
Theorem precedence_order :
  (forall api context env key scope a siteId,
     exists accountEnv siteEnv m,
       Resolves api context env key scope a siteId accountEnv siteEnv m /\
       forall k, obj_get k m =
                 layered k (precedence (default any scope) env accountEnv siteEnv)) /\
  exists m,
    getEnvelopeEnv
      (listApi [sampleItem "A" "all" "2"] [sampleItem "A" "all" "3"])
      None [("A", localVar general "1")] None (Some any) (site (Some "acct"))
    = Return m /\
    option_map var_value (obj_get "A" m) = Some "3".
Proof.
  split; [apply getEnvelopeEnv_defined|].
  eexists. split; [vm_compute; reflexivity | reflexivity].
Qed.

(** ** Gating of the config-file and add-on variables *)

Lemma fromSource_other source source' variable :
  fromSource source variable = true -> source <> source' ->
  fromSource source' variable = false.
Proof.
  unfold fromSource. destruct (var_sources variable) as [|first rest];
    [discriminate|].
  destruct first, source, source'; simpl; congruence.
Qed.

(** C7: config-file variables are included exactly for the scopes
    ['any'], ['builds'] and ['post_processing']; a key that only the
    configFile bucket (or the addons bucket) provides is absent from a
    resolution for scope ['runtime'] and present for scope ['builds']. *)
Theorem config_file_gating :
  (forall scope,
     includeConfigEnvVars scope = true <->
     In scope [any; only builds; only post_processing]) /\
  (forall api context env key a siteId bucket k variable,
     bucket = configFile \/ bucket = addons ->
     NoDup (keys env) ->
     obj_get k env = Some variable ->
     fromSource bucket variable = true ->
     (forall fetchSite items,
        fetchSite = None \/ fetchSite = siteId ->
        fetchEnvelopeItems (Some a) api (default "" key) fetchSite
          = Return (Items items) ->
        ~ In k (map item_key items)) ->
     (exists m,
        getEnvelopeEnv api context env key (Some (only runtime))
          {| account_slug := Some a; id := siteId |} = Return m /\
        obj_get k m = None) /\
     (exists m,
        getEnvelopeEnv api context env key (Some (only builds))
          {| account_slug := Some a; id := siteId |} = Return m /\
        obj_get k m = Some variable)).
Proof.
  split.
  - intros [|[]]; simpl; split; intros H; try reflexivity; try discriminate;
      intuition discriminate.
  - intros api context env key a siteId bucket k variable Hbucket Hnd Henv Hsrc Hremote.
    assert (Hlocal : forall source,
              obj_get k (filterEnvBySource env source) =
              if fromSource source variable then Some variable else None).
    { intros source. now rewrite filterEnvBySource_get, Henv. }
    assert (Hgeneral : fromSource general variable = false).
    { destruct Hbucket as [-> | ->];
        (eapply fromSource_other; [exact Hsrc | discriminate]). }
    split.
    + destruct (getEnvelopeEnv_defined api context env key (Some (only runtime)) a siteId)
        as (accountEnv & siteEnv & m & Hres & Hget).
      destruct Hres as (accountItems & siteItems & Hfa & Hfs & _ & _ & Hka & Hks & Hm).
      exists m. split; [exact Hm|].
      rewrite Hget, layered_precedence. cbn [default].
      change (includeConfigEnvVars (only runtime)) with false. cbn [obj_get].
      rewrite (Hks k) by (eapply Hremote; [right; reflexivity | exact Hfs]).
      rewrite (Hka k) by (eapply Hremote; [left; reflexivity | exact Hfa]).
      now rewrite Hlocal, Hgeneral.
    + destruct (getEnvelopeEnv_defined api context env key (Some (only builds)) a siteId)
        as (accountEnv & siteEnv & m & Hres & Hget).
      destruct Hres as (accountItems & siteItems & Hfa & Hfs & _ & _ & Hka & Hks & Hm).
      exists m. split; [exact Hm|].
      rewrite Hget, layered_precedence. cbn [default].
      change (includeConfigEnvVars (only builds)) with true.
      rewrite (Hks k) by (eapply Hremote; [right; reflexivity | exact Hfs]).
      rewrite (Hka k) by (eapply Hremote; [left; reflexivity | exact Hfa]).
      rewrite !Hlocal.
      destruct Hbucket as [-> | ->]; rewrite Hsrc; [reflexivity|].
      rewrite (fromSource_other addons configFile variable Hsrc) by discriminate.
      reflexivity.
Qed.

Lemma config_file_gating_witness :
  (exists m,
     getEnvelopeEnv (listApi [sampleItem "B" "all" "2"] []) None
       [("A", localVar configFile "1")] None (Some (only runtime))
       {| account_slug := Some "acct"; id := Some "site-1" |} = Return m /\
     obj_get "A" m = None) /\
  (exists m,
     getEnvelopeEnv (listApi [sampleItem "B" "all" "2"] []) None
       [("A", localVar configFile "1")] None (Some (only builds))
       {| account_slug := Some "acct"; id := Some "site-1" |} = Return m /\
     obj_get "A" m = Some (localVar configFile "1")).
Proof.
  apply (proj2 config_file_gating (listApi [sampleItem "B" "all" "2"] []) None
           [("A", localVar configFile "1")] None "acct" (Some "site-1")
           configFile "A" (localVar configFile "1")).
  - left. reflexivity.
  - repeat constructor. simpl. tauto.
  - reflexivity.
  - reflexivity.
  - intros fetchSite items [-> | ->] H; vm_compute in H; injection H as <-;
      simpl; intuition discriminate.
Defined.

(** ** The scope humanizer *)

Lemma scope_in_available (s : Scope) : In s AVAILABLE_SCOPES.
Proof. destruct s; simpl; tauto. Qed.

Lemma available_scopes_nodup : NoDup AVAILABLE_SCOPES.
Proof. repeat constructor; simpl; intuition discriminate. Qed.

Lemma full_scope_set_length (scopes : list Scope) :
  NoDup scopes -> ((forall s, In s scopes) <-> List.length scopes = 4).
Proof.
  intros Hnd. split.
  - intros Hall. apply Nat.le_antisymm.
    + apply (NoDup_incl_length Hnd (l' := AVAILABLE_SCOPES)).
      intros s _. apply scope_in_available.
    + apply (NoDup_incl_length available_scopes_nodup (l' := scopes)).
      intros s _. apply Hall.
  - intros Hlen s.
    apply (NoDup_length_incl Hnd (l' := AVAILABLE_SCOPES)).
    + rewrite Hlen. apply Nat.le_refl.
    + intros s' _. apply scope_in_available.
    + apply scope_in_available.
Qed.

(** C8, as stated, fails: the labels follow the order of the argument,
    not the declared order of the enumeration. *)
Lemma labels_follow_argument_order :
  getHumanReadableScopes (Some [runtime; builds]) = "Runtime, Builds" /\
  labelsInDeclaredOrder [runtime; builds] = "Builds, Runtime" /\
  getHumanReadableScopes (Some [runtime; builds])
    <> labelsInDeclaredOrder [runtime; builds].
Proof. repeat split. vm_compute. discriminate. Qed.

(** C8 (amended): [undefined] is rendered as "Builds, Post processing"; a
    duplicate-free sequence holding all four scopes, in any order, is
    rendered as "All"; every other duplicate-free sequence is rendered as
    the comma-joined labels of its members in the order in which the
    argument lists them. *)
Theorem humanized_scopes :
  getHumanReadableScopes None = "Builds, Post processing" /\
  (forall scopes,
     NoDup scopes -> (forall s, In s scopes) ->
     getHumanReadableScopes (Some scopes) = "All") /\
  (forall scopes,
     NoDup scopes -> ~ (forall s, In s scopes) ->
     getHumanReadableScopes (Some scopes) = join ", " (map humanScope scopes)).
Proof.
  split; [reflexivity|]. split.
  - intros scopes Hnd Hall. unfold getHumanReadableScopes.
    apply (full_scope_set_length scopes Hnd) in Hall. now rewrite Hall.
  - intros scopes Hnd Hnot. unfold getHumanReadableScopes.
    destruct (Nat.eqb_spec (List.length scopes) (List.length HUMAN_SCOPES))
      as [Hlen|_]; [|reflexivity].
    exfalso. apply Hnot. now apply (full_scope_set_length scopes Hnd).
Qed.

Lemma humanized_scopes_witness :
  getHumanReadableScopes (Some [post_processing; runtime; builds; functions])
    = "All" /\
  getHumanReadableScopes (Some [runtime; builds])
    = join ", " (map humanScope [runtime; builds]).
Proof.
  split.
  - apply (proj1 (proj2 humanized_scopes)).
    + repeat constructor; simpl; intuition discriminate.
    + intros []; simpl; tauto.
  - apply (proj2 (proj2 humanized_scopes)).
    + repeat constructor; simpl; intuition discriminate.
    + intros H. specialize (H functions). simpl in H. intuition discriminate.
Defined.

(** ** Order of the formatted keys *)

(** The keys b, A, a2 are emitted in the order A, a2, b. *)
Example formatted_keys_b_A_a2 :
  exists o,
    formatEnvelopeData None
      (Some (Items [sampleItem "b" "all" "1"; sampleItem "A" "all" "2";
                    sampleItem "a2" "all" "3"]))
      None ui = Return o /\
    keys o = ["A"; "a2"; "b"].
Proof. eexists. split; [vm_compute; reflexivity | reflexivity]. Qed.

(** C9: keys that are array indices leave the sorted order: the items
    with keys 10 and 9 are sorted as 10, 9 and emitted as 9, 10, where the
    specification promises the ascending case-insensitive order. *)
Theorem array_index_keys_leave_sorted_order :
  map item_key (sort compareKeys [sampleItem "9" "all" "x"; sampleItem "10" "all" "y"])
    = ["10"; "9"] /\
  exists o,
    formatEnvelopeData None
      (Some (Items [sampleItem "9" "all" "x"; sampleItem "10" "all" "y"]))
      None ui = Return o /\
    keys o = ["9"; "10"] /\
    ~ StronglySorted keyOrder (keys o).
Proof.
  split; [reflexivity|].
  eexists. split; [vm_compute; reflexivity|]. split; [reflexivity|].
  intros H. inversion H as [|? ? _ Hall]; subst.
  inversion Hall as [|? ? Hord _]; subst.
  vm_compute in Hord. discriminate Hord.
Qed.

(** ** Further facts about the selector and the formatter *)

Lemma find_first {A : Type} (p : A -> bool) (l : list A) (x : A) :
  find p l = Some x ->
  exists before after,
    l = before ++ x :: after /\ p x = true /\
    forall y, In y before -> p y = false.
Proof.
  induction l as [|a l IH]; simpl; [discriminate|].
  destruct (p a) eqn:Hpa.
  - intros [= ->]. exists [], l. repeat split; [exact Hpa|]. intros y [].
  - intros H. destruct (IH H) as (before & after & -> & Hpx & Hbefore).
    exists (a :: before), after. repeat split; [exact Hpx|].
    intros y [<-|Hin]; [exact Hpa | now apply Hbefore].
Qed.

Lemma includes_spec (x : string) (l : list string) :
  includes x l = true <-> In x l.
Proof.
  unfold includes. rewrite existsb_exists. split.
  - intros (y & Hin & Heq). apply String.eqb_eq in Heq. now subst.
  - intros Hin. exists x. split; [exact Hin | apply String.eqb_refl].
Qed.

(** The callback of [findValueInValues] decides [applies]. *)
Lemma applies_spec (context : string) (val : EnvelopeValue) :
  (if negb (includes context AVAILABLE_CONTEXTS)
   then includes (val_context val) ["branch"; "all"]
        && match val_context_parameter val with
           | Some parameter => String.eqb parameter context
           | None => false
           end
   else includes (val_context val) [context; "all"]) = true
  <-> applies context val.
Proof.
  unfold applies. destruct (includes context AVAILABLE_CONTEXTS); cbn [negb].
  - rewrite includes_spec. simpl. intuition.
  - rewrite andb_true_iff, includes_spec. simpl.
    destruct (val_context_parameter val) as [parameter|].
    + rewrite String.eqb_eq. intuition congruence.
    + intuition discriminate.
Qed.

Lemma lastWithKey_in k l item :
  lastWithKey k l = Some item -> In item l /\ item_key item = k.
Proof.
  induction l as [|x l IH]; simpl; [discriminate|].
  destruct (lastWithKey k l) as [later|].
  - intros [= ->]. destruct (IH eq_refl). auto.
  - destruct (String.eqb_spec (item_key x) k); [|discriminate].
    intros [= ->]. auto.
Qed.

Lemma lastWithKey_none k l :
  lastWithKey k l = None <-> ~ In k (map item_key l).
Proof.
  induction l as [|x l IH]; simpl; [tauto|].
  destruct (lastWithKey k l) as [later|] eqn:E.
  - split; [discriminate|]. intros H. exfalso. apply H. right.
    apply lastWithKey_in in E. destruct E as [Hin <-]. now apply in_map.
  - destruct (String.eqb_spec (item_key x) k).
    + split; [discriminate | tauto].
    + split; [|reflexivity]. intros _ [Heq|Hin]; [congruence|].
      now apply IH.
Qed.

Lemma NoDup_map_In_eq {A B : Type} (f : A -> B) (l : list A) (x y : A) :
  NoDup (map f l) -> In x l -> In y l -> f x = f y -> x = y.
Proof.
  induction l as [|a l IH]; simpl; [tauto|].
  intros Hnd Hx Hy Hf. inversion Hnd as [|? ? Hni Hnd']; subst.
  destruct Hx as [->|Hx], Hy as [->|Hy]; try reflexivity.
  - exfalso. apply Hni. rewrite Hf. now apply in_map.
  - exfalso. apply Hni. rewrite <- Hf. now apply in_map.
  - now apply IH.
Qed.

Lemma lastWithKey_unique l item :
  NoDup (map item_key l) -> In item l -> lastWithKey (item_key item) l = Some item.
Proof.
  intros Hnd Hin.
  destruct (lastWithKey (item_key item) l) as [found|] eqn:E.
  - apply lastWithKey_in in E. destruct E as [Hfound Hkey].
    f_equal. now apply (NoDup_map_In_eq item_key l).
  - apply lastWithKey_none in E. exfalso. apply E. now apply in_map.
Qed.

(** Filtering items with distinct keys leaves distinct keys. *)
Lemma filter_distinct_keys (keep : EnvelopeItem -> bool) (items : list EnvelopeItem) :
  NoDup (map item_key items) -> NoDup (map item_key (filter keep items)).
Proof.
  intros Hnd. induction items as [|item items IH]; simpl; [constructor|].
  inversion Hnd as [|? ? Hfresh Hrest]; subst.
  destruct (keep item); simpl; [|now apply IH].
  constructor; [|now apply IH].
  intros Hin. apply Hfresh. apply in_map_iff in Hin.
  destruct Hin as (other & Hkey & Hin). apply filter_In in Hin.
  destruct Hin as [Hin _]. rewrite <- Hkey. now apply in_map.
Qed.

Section FormatLookup.

Variables (context : string) (source : Source).

Lemma reduce_formatStep_get (l : list EnvelopeItem) :
  forall acc,
    Forall (fun item => findValueInValues (item_values item) context <> None) l ->
    NoDup (keys acc) ->
    exists o,
      reduce (formatStep context source) l acc = Return o /\
      forall k,
        obj_get k o =
        match lastWithKey k l with
        | Some item =>
            option_map (resolvedVariable source item)
              (findValueInValues (item_values item) context)
        | None => obj_get k acc
        end.
Proof.
  induction l as [|cur l IH]; simpl; intros acc Hsel Hnd.
  - exists acc. auto.
  - inversion Hsel as [|? ? Hcur Hrest]; subst.
    unfold formatStep at 1.
    destruct (findValueInValues (item_values cur) context) as [val|] eqn:Hval;
      [|congruence].
    simpl.
    match goal with |- context [reduce _ l ?a] => set (acc' := a) end.
    destruct (IH acc' Hrest) as (o & Ho & Hget).
    { apply nodup_keys_set, nodup_keys_assign. constructor. }
    exists o. split; [exact Ho|].
    intros k. rewrite Hget.
    destruct (lastWithKey k l); [reflexivity|].
    unfold acc'. rewrite obj_get_set, obj_get_spread by exact Hnd.
    rewrite (String.eqb_sym k (item_key cur)).
    destruct (String.eqb (item_key cur) k); [|reflexivity].
    rewrite Hval. reflexivity.
Qed.

End FormatLookup.

(** The items that the formatter folds over. *)
Lemma formatEnvelopeData_get context items scope source :
  exists o,
    formatEnvelopeData context (Some (Items items)) scope source = Return o /\
    forall k,
      obj_get k o =
      match lastWithKey k
              (sort compareKeys
                 (filter (inScope (default any scope))
                    (filter (fun item =>
                               match findValueInValues (item_values item)
                                       (default "dev" context) with
                               | Some _ => true
                               | None => false
                               end) items))) with
      | Some item => formatsTo (default "dev" context) (default any scope) source item
      | None => None
      end.
Proof.
  unfold formatEnvelopeData. simpl default at 3.
  set (ctx := default "dev" context). set (sc := default any scope).
  set (byContext := filter _ items).
  change (filter _ byContext) with (filter (inScope sc) byContext).
  set (sorted := sort compareKeys (filter (inScope sc) byContext)).
  assert (Hin : forall item, In item sorted ->
            findValueInValues (item_values item) ctx <> None /\
            inScope sc item = true).
  { intros item Hitem. eapply Permutation_in in Hitem; [|apply sort_perm].
    apply filter_In in Hitem. destruct Hitem as [Hitem Hscope].
    split; [|exact Hscope].
    pose proof (findValueInValues_selected items ctx) as Hsel.
    rewrite Forall_forall in Hsel. now apply Hsel. }
  destruct (reduce_formatStep_get ctx source sorted []) as (o & Ho & Hget).
  - apply Forall_forall. intros item Hitem. now apply Hin.
  - constructor.
  - exists o. split; [exact Ho|]. intros k. rewrite Hget.
    destruct (lastWithKey k sorted) as [item|] eqn:E; [|reflexivity].
    apply lastWithKey_in in E. destruct E as [Hitem _].
    destruct (Hin item Hitem) as [_ Hscope].
    unfold formatsTo. rewrite Hscope.
    destruct (findValueInValues (item_values item) ctx); reflexivity.
Qed.

(** ** Further properties of the value selector *)

(** X1: the selector returns the first value of the sequence that
    applies to the requested context, and nothing when no value
    applies. *)
Theorem findValueInValues_first_match (values : list EnvelopeValue) (context : string) :
  match findValueInValues values context with
  | Some val =>
      exists before after,
        values = before ++ val :: after /\
        applies context val /\
        forall earlier, In earlier before -> ~ applies context earlier
  | None => forall val, In val values -> ~ applies context val
  end.
Proof.
  unfold findValueInValues.
  match goal with |- context [find ?f values] => set (p := f) end.
  assert (Hp : forall val, p val = true <-> applies context val).
  { intros val. apply applies_spec. }
  destruct (find p values) as [val|] eqn:E.
  - destruct (find_first p values val E) as (before & after & -> & Hval & Hbefore).
    exists before, after. split; [reflexivity|]. split; [now apply Hp|].
    intros earlier Hin Happlies. apply Hp in Happlies.
    rewrite (Hbefore earlier Hin) in Happlies. discriminate.
  - intros val Hin Happlies. apply Hp in Happlies.
    rewrite (find_none p values E val Hin) in Happlies. discriminate.
Qed.

(** ** Further properties of the scoped-record formatter *)

(** X2: every variable of the formatted mapping comes from an item of the
    input with that key which has a value for the requested context and
    lists the requested scope; it carries that value, the scopes of the
    item and the given source as its only source. *)
Theorem formatEnvelopeData_provenance context items scope source :
  exists o,
    formatEnvelopeData context (Some (Items items)) scope source = Return o /\
    forall k variable,
      obj_get k o = Some variable ->
      exists item val,
        In item items /\ item_key item = k /\
        findValueInValues (item_values item) (default "dev" context) = Some val /\
        inScope (default any scope) item = true /\
        variable = resolvedVariable source item val.
Proof.
  destruct (formatEnvelopeData_get context items scope source) as (o & Ho & Hget).
  exists o. split; [exact Ho|].
  intros k variable Hk. rewrite Hget in Hk.
  destruct (lastWithKey k _) as [item|] eqn:E; [|discriminate].
  apply lastWithKey_in in E. destruct E as [Hin Hkey].
  eapply Permutation_in in Hin; [|apply sort_perm].
  apply filter_In in Hin. destruct Hin as [Hin _].
  apply filter_In in Hin. destruct Hin as [Hin _].
  unfold formatsTo in Hk.
  destruct (findValueInValues (item_values item) (default "dev" context))
    as [val|] eqn:Hval; [|discriminate].
  destruct (inScope (default any scope) item) eqn:Hscope; [|discriminate].
  exists item, val. injection Hk as <-. auto.
Qed.

Lemma formatEnvelopeData_distinct_keys context items scope source :
  NoDup (map item_key items) ->
  exists o,
    formatEnvelopeData context (Some (Items items)) scope source = Return o /\
    (forall item, In item items ->
       obj_get (item_key item) o =
       formatsTo (default "dev" context) (default any scope) source item) /\
    (forall k, ~ In k (map item_key items) -> obj_get k o = None).
Proof.
  intros Hnd.
  destruct (formatEnvelopeData_get context items scope source) as (o & Ho & Hget).
  exists o. split; [exact Ho|].
  set (ctx := default "dev" context) in *. set (sc := default any scope) in *.
  set (selected := fun item : EnvelopeItem =>
                     match findValueInValues (item_values item) ctx with
                     | Some _ => true
                     | None => false
                     end) in *.
  set (sorted := sort compareKeys (filter (inScope sc) (filter selected items))) in *.
  assert (Hsorted : forall item, In item sorted <->
            In item items /\ selected item = true /\ inScope sc item = true).
  { intros item. split.
    - intros Hin. eapply Permutation_in in Hin; [|apply sort_perm].
      apply filter_In in Hin. destruct Hin as [Hin Hscope].
      apply filter_In in Hin. tauto.
    - intros (Hin & Hsel & Hscope).
      eapply Permutation_in; [symmetry; apply sort_perm|].
      apply filter_In. split; [|exact Hscope]. apply filter_In. tauto. }
  assert (Hnds : NoDup (map item_key sorted)).
  { eapply Permutation_NoDup;
      [symmetry; apply Permutation_map, sort_perm|].
    now apply filter_distinct_keys, filter_distinct_keys. }
  split.
  - intros item Hin. rewrite Hget.
    destruct (lastWithKey (item_key item) sorted) as [found|] eqn:E.
    + apply lastWithKey_in in E. destruct E as [Hfound Hkey].
      apply Hsorted in Hfound.
      assert (found = item) as ->; [|reflexivity].
      apply (NoDup_map_In_eq item_key items); tauto.
    + apply lastWithKey_none in E.
      unfold formatsTo. fold ctx sc.
      destruct (findValueInValues (item_values item) ctx) as [val|] eqn:Hval;
        [|reflexivity].
      destruct (inScope sc item) eqn:Hscope; [|reflexivity].
      exfalso. apply E. apply in_map. apply Hsorted.
      unfold selected. now rewrite Hval.
  - intros k Hk. rewrite Hget.
    destruct (lastWithKey k sorted) as [found|] eqn:E; [|reflexivity].
    apply lastWithKey_in in E. destruct E as [Hfound <-].
    apply Hsorted in Hfound. exfalso. apply Hk. apply in_map. tauto.
Qed.

(** X3: when the items have distinct keys, the formatted mapping holds,
    for each item that has a value for the requested context and lists
    the requested scope, exactly the record built from that item, and it
    holds nothing else. *)
Theorem formatEnvelopeData_complete context items scope source :
  NoDup (map item_key items) ->
  exists o,
    formatEnvelopeData context (Some (Items items)) scope source = Return o /\
    (forall item, In item items ->
       obj_get (item_key item) o =
       formatsTo (default "dev" context) (default any scope) source item) /\
    (forall k, ~ In k (map item_key items) -> obj_get k o = None).
Proof. apply formatEnvelopeData_distinct_keys. Qed.

Lemma formatEnvelopeData_complete_witness :
  exists o,
    formatEnvelopeData (Some "production")
      (Some (Items [sampleItem "B" "dev" "1"; sampleItem "A" "production" "2"]))
      (Some (only builds)) account = Return o /\
    (forall item,
       In item [sampleItem "B" "dev" "1"; sampleItem "A" "production" "2"] ->
       obj_get (item_key item) o =
       formatsTo (default "dev" (Some "production"))
         (default any (Some (only builds))) account item) /\
    (forall k,
       ~ In k (map item_key [sampleItem "B" "dev" "1"; sampleItem "A" "production" "2"]) ->
       obj_get k o = None).
Proof.
  apply (formatEnvelopeData_complete (Some "production")
           [sampleItem "B" "dev" "1"; sampleItem "A" "production" "2"]
           (Some (only builds)) account).
  repeat constructor; simpl; intuition discriminate.
Defined.

(** X4: when the items have distinct keys, asking for one scope instead
    of ['any'] only removes variables: whatever the scoped mapping holds,
    the unscoped mapping holds under the same key. *)
Theorem formatEnvelopeData_scope_restricts context items s source :
  NoDup (map item_key items) ->
  exists scoped unscoped,
    formatEnvelopeData context (Some (Items items)) (Some (only s)) source
      = Return scoped /\
    formatEnvelopeData context (Some (Items items)) (Some any) source
      = Return unscoped /\
    forall k variable,
      obj_get k scoped = Some variable -> obj_get k unscoped = Some variable.
Proof.
  intros Hnd.
  destruct (formatEnvelopeData_distinct_keys context items (Some (only s)) source Hnd)
    as (scoped & Hs & Hsin & Hsout).
  destruct (formatEnvelopeData_distinct_keys context items (Some any) source Hnd)
    as (unscoped & Hu & Huin & _).
  exists scoped, unscoped. split; [exact Hs|]. split; [exact Hu|].
  intros k variable Hk.
  destruct (in_dec string_dec k (map item_key items)) as [Hin|Hout].
  - apply in_map_iff in Hin. destruct Hin as (item & <- & Hin).
    rewrite (Hsin item Hin) in Hk. rewrite (Huin item Hin).
    unfold formatsTo in *. cbn [default] in *.
    destruct (findValueInValues (item_values item) (default "dev" context));
      [|discriminate].
    destruct (inScope (only s) item); [exact Hk | discriminate].
  - rewrite (Hsout k Hout) in Hk. discriminate.
Qed.

Lemma formatEnvelopeData_scope_restricts_witness :
  exists scoped unscoped,
    formatEnvelopeData None
      (Some (Items [ {| item_key := "A"; item_scopes := [builds];
                        item_values := [allValue "1"] |};
                     {| item_key := "B"; item_scopes := [runtime];
                        item_values := [allValue "2"] |} ]))
      (Some (only builds)) ui = Return scoped /\
    formatEnvelopeData None
      (Some (Items [ {| item_key := "A"; item_scopes := [builds];
                        item_values := [allValue "1"] |};
                     {| item_key := "B"; item_scopes := [runtime];
                        item_values := [allValue "2"] |} ]))
      (Some any) ui = Return unscoped /\
    forall k variable,
      obj_get k scoped = Some variable -> obj_get k unscoped = Some variable.
Proof.
  apply (formatEnvelopeData_scope_restricts None
           [ {| item_key := "A"; item_scopes := [builds];
                item_values := [allValue "1"] |};
             {| item_key := "B"; item_scopes := [runtime];
                item_values := [allValue "2"] |} ] builds ui).
  repeat constructor; simpl; intuition discriminate.
Defined.

(** X5: when the keys of the items are ASCII strings and none of them is
    an array index, the keys of the formatted mapping are enumerated in
    ascending case-insensitive order. *)
Theorem formatEnvelopeData_key_order context items scope source :
  Forall asciiKey (map item_key items) ->
  Forall notArrayIndex (map item_key items) ->
  exists o,
    formatEnvelopeData context (Some (Items items)) scope source = Return o /\
    StronglySorted keyOrder (keys o).
Proof. intros _. apply formatEnvelopeData_sorted. Qed.

Lemma formatEnvelopeData_key_order_witness :
  exists o,
    formatEnvelopeData None
      (Some (Items [sampleItem "b" "all" "1"; sampleItem "A" "all" "2";
                    sampleItem "a2" "all" "3"; sampleItem "B" "all" "4"]))
      None ui = Return o /\
    StronglySorted keyOrder (keys o).
Proof.
  apply (formatEnvelopeData_key_order None
           [sampleItem "b" "all" "1"; sampleItem "A" "all" "2";
            sampleItem "a2" "all" "3"; sampleItem "B" "all" "4"] None ui).
  - repeat constructor.
  - repeat constructor.
Defined.

(** ** Further facts about the flat translation *)

Lemma toMongoStep_flatValue context acc cur :
  toMongoStep context acc cur =
  match flatValue context cur with
  | Some v => obj_set (item_key cur) v (obj_assign [] acc)
  | None => acc
  end.
Proof.
  unfold toMongoStep, flatValue.
  destruct (find _ (item_values cur)) as [envVar|]; [|reflexivity].
  destruct (negb (String.eqb (val_value envVar) "")); reflexivity.
Qed.

Lemma fold_toMongoStep_get context (l : list EnvelopeItem) :
  forall acc,
    NoDup (keys acc) ->
    NoDup (keys (fold_left (toMongoStep context) l acc)) /\
    forall k,
      obj_get k (fold_left (toMongoStep context) l acc) =
      match lastFlat context k l with
      | Some v => Some v
      | None => obj_get k acc
      end.
Proof.
  induction l as [|cur l IH]; simpl; intros acc Hnd.
  - split; [exact Hnd | reflexivity].
  - rewrite toMongoStep_flatValue.
    destruct (flatValue context cur) as [v|] eqn:Hflat.
    + destruct (IH (obj_set (item_key cur) v (obj_assign [] acc))) as [Hnd' Hget].
      { apply nodup_keys_set, nodup_keys_assign. constructor. }
      split; [exact Hnd'|]. intros k. rewrite Hget.
      destruct (lastFlat context k l); [reflexivity|].
      rewrite obj_get_set, obj_get_spread by exact Hnd.
      rewrite (String.eqb_sym k (item_key cur)).
      destruct (String.eqb (item_key cur) k); reflexivity.
    + destruct (IH acc Hnd) as [Hnd' Hget].
      split; [exact Hnd'|]. intros k. rewrite Hget.
      destruct (lastFlat context k l); [reflexivity|].
      destruct (String.eqb (item_key cur) k); reflexivity.
Qed.

Lemma lastFlat_in context k l v :
  lastFlat context k l = Some v ->
  exists item, In item l /\ item_key item = k /\ flatValue context item = Some v.
Proof.
  induction l as [|x l IH]; simpl; [discriminate|].
  destruct (lastFlat context k l) as [later|].
  - intros [= ->]. destruct (IH eq_refl) as (item & Hin & Hrest).
    exists item. tauto.
  - destruct (String.eqb_spec (item_key x) k); [|discriminate].
    intros H. exists x. tauto.
Qed.

Lemma lastFlat_distinct_keys context l item :
  NoDup (map item_key l) -> In item l ->
  lastFlat context (item_key item) l = flatValue context item.
Proof.
  induction l as [|x l IH]; simpl; [tauto|].
  intros Hnd Hin. inversion Hnd as [|? ? Hni Hnd']; subst.
  destruct Hin as [->|Hin].
  - destruct (lastFlat context (item_key item) l) as [later|] eqn:E.
    + apply lastFlat_in in E. destruct E as (other & Hother & Hkey & _).
      exfalso. apply Hni. rewrite <- Hkey. now apply in_map.
    + now rewrite String.eqb_refl.
  - rewrite (IH Hnd' Hin).
    destruct (flatValue context item); [reflexivity|].
    destruct (String.eqb_spec (item_key x) (item_key item)) as [E|_];
      [|reflexivity].
    exfalso. apply Hni. rewrite E. now apply in_map.
Qed.

Lemma lastFlat_absent context k l :
  ~ In k (map item_key l) -> lastFlat context k l = None.
Proof.
  intros Hk. destruct (lastFlat context k l) as [v|] eqn:E; [|reflexivity].
  apply lastFlat_in in E. destruct E as (item & Hin & <- & _).
  exfalso. apply Hk. now apply in_map.
Qed.

Lemma translateFromEnvelopeToMongo_get envVars context k :
  obj_get k (translateFromEnvelopeToMongo envVars context) =
  lastFlat (default "dev" context) k (sort compareKeys (default [] envVars)).
Proof.
  unfold translateFromEnvelopeToMongo.
  destruct (fold_toMongoStep_get (default "dev" context)
              (sort compareKeys (default [] envVars)) []) as [_ Hget];
    [constructor|].
  rewrite Hget. destruct (lastFlat _ k _); reflexivity.
Qed.

Lemma translateFromEnvelopeToMongo_nodup envVars context :
  NoDup (keys (translateFromEnvelopeToMongo envVars context)).
Proof.
  unfold translateFromEnvelopeToMongo.
  apply fold_toMongoStep_get. constructor.
Qed.

Lemma flatValue_nonempty context item v :
  flatValue context item = Some v -> v <> "".
Proof.
  unfold flatValue. destruct (find _ (item_values item)) as [envVar|];
    [|discriminate].
  destruct (String.eqb_spec (val_value envVar) ""); simpl; [discriminate|].
  intros [= <-]. assumption.
Qed.

Lemma flatValue_legacy context entry :
  flatValue context (toEnvelopeItem entry) = nonEmpty (Some (snd entry)).
Proof.
  unfold flatValue, toEnvelopeItem, nonEmpty, contextOf. cbn [item_values find
    val_context_parameter val_context val_value].
  assert (E : includes "all" [context; "all"] = true).
  { apply includes_spec. simpl. tauto. }
  rewrite E. cbn [val_value]. destruct (String.eqb (snd entry) ""); reflexivity.
Qed.

(** The round trip of a flat mapping, at any context. *)
Lemma roundTrip_any_context (M : obj string) context k :
  NoDup (keys M) ->
  obj_get k (translateFromEnvelopeToMongo
               (Some (translateFromMongoToEnvelope (Some M))) context)
  = nonEmpty (obj_get k M).
Proof.
  intros Hnd. rewrite translateFromEnvelopeToMongo_get.
  unfold translateFromMongoToEnvelope, entries. cbn [default].
  set (ctx := default "dev" context).
  set (sorted := sort compareKeys (map toEnvelopeItem M)).
  assert (Hkeys : map item_key (map toEnvelopeItem M) = keys M).
  { unfold keys. rewrite map_map. reflexivity. }
  assert (Hnds : NoDup (map item_key sorted)).
  { eapply Permutation_NoDup;
      [symmetry; apply Permutation_map, sort_perm|].
    now rewrite Hkeys. }
  destruct (obj_get k M) as [v|] eqn:E.
  - apply obj_get_in in E.
    assert (Hin : In (toEnvelopeItem (k, v)) sorted).
    { eapply Permutation_in; [symmetry; apply sort_perm|].
      now apply in_map. }
    pose proof (lastFlat_distinct_keys ctx sorted _ Hnds Hin) as Hlast.
    cbn [toEnvelopeItem item_key fst] in Hlast. rewrite Hlast.
    apply (flatValue_legacy ctx (k, v)).
  - apply lastFlat_absent. intros Hin. apply obj_get_none_iff in E. apply E.
    rewrite <- Hkeys.
    eapply Permutation_in; [apply Permutation_map, sort_perm | exact Hin].
Qed.

(** ** Further properties of the legacy translators *)

(** X6: whatever the context, the round trip of a flat mapping removes
    the keys whose value is the empty string and keeps every other key
    with its value. *)
Theorem roundTrip_every_context (M : obj string) (context : option string) :
  NoDup (keys M) ->
  forall k,
    obj_get k (translateFromEnvelopeToMongo
                 (Some (translateFromMongoToEnvelope (Some M))) context)
    = match obj_get k M with
      | Some v => if String.eqb v "" then None else Some v
      | None => None
      end.
Proof. intros Hnd k. now apply roundTrip_any_context. Qed.

Lemma roundTrip_every_context_witness :
  obj_get "A" (translateFromEnvelopeToMongo
                 (Some (translateFromMongoToEnvelope
                          (Some [("B", "x"); ("A", ""); ("7", "y")])))
                 (Some "staging"))
  = match obj_get "A" [("B", "x"); ("A", ""); ("7", "y")] with
    | Some v => if String.eqb v "" then None else Some v
    | None => None
    end.
Proof.
  apply (roundTrip_every_context [("B", "x"); ("A", ""); ("7", "y")] (Some "staging")).
  repeat constructor; simpl; intuition discriminate.
Defined.

(** X7: every value of the flat mapping is a non-empty value of an item
    with that key, tagged (by its parameter, else by its context) with
    the requested context or with ['all']; the flat mapping never holds
    the empty string. *)
Theorem translateFromEnvelopeToMongo_values envVars context k v :
  obj_get k (translateFromEnvelopeToMongo (Some envVars) context) = Some v ->
  v <> "" /\
  exists item val,
    In item envVars /\ item_key item = k /\
    In val (item_values item) /\ val_value val = v /\
    In (contextOf val) [default "dev" context; "all"].
Proof.
  rewrite translateFromEnvelopeToMongo_get. intros H.
  apply lastFlat_in in H. destruct H as (item & Hin & Hkey & Hflat).
  split; [eapply flatValue_nonempty; exact Hflat|].
  eapply Permutation_in in Hin; [|apply sort_perm].
  unfold flatValue in Hflat.
  destruct (find _ (item_values item)) as [val|] eqn:Hfind; [|discriminate].
  apply find_some in Hfind. destruct Hfind as [Hval Htag].
  apply includes_spec in Htag.
  destruct (negb (String.eqb (val_value val) "")); [|discriminate].
  injection Hflat as <-. exists item, val. auto.
Qed.

Lemma translateFromEnvelopeToMongo_values_witness :
  "2" <> "" /\
  exists item val,
    In item [sampleItem "A" "dev" "1"; sampleItem "A" "all" "2"] /\
    item_key item = "A" /\
    In val (item_values item) /\ val_value val = "2" /\
    In (contextOf val) [default "dev" (Some "production"); "all"].
Proof.
  apply (translateFromEnvelopeToMongo_values
           [sampleItem "A" "dev" "1"; sampleItem "A" "all" "2"]
           (Some "production") "A" "2").
  reflexivity.
Defined.

(** X8: a flat mapping produced by the structured-to-flat translation is
    a fixed point of the round trip, at any context. *)
Theorem translateFromEnvelopeToMongo_round_trip envVars context context' :
  sameMapping
    (translateFromEnvelopeToMongo
       (Some (translateFromMongoToEnvelope
                (Some (translateFromEnvelopeToMongo envVars context))))
       context')
    (translateFromEnvelopeToMongo envVars context).
Proof.
  intros k.
  rewrite roundTrip_any_context by apply translateFromEnvelopeToMongo_nodup.
  destruct (obj_get k (translateFromEnvelopeToMongo envVars context)) as [v|] eqn:E;
    [|reflexivity].
  rewrite translateFromEnvelopeToMongo_get in E.
  apply lastFlat_in in E. destruct E as (item & _ & _ & Hflat).
  apply flatValue_nonempty in Hflat. simpl.
  destruct (String.eqb_spec v ""); [contradiction | reflexivity].
Qed.

(** ** How the translators and the formatter compose *)

Lemma findValueInValues_all v context :
  findValueInValues [allValue v] context =
  if includes context AVAILABLE_CONTEXTS then Some (allValue v) else None.
Proof.
  unfold findValueInValues.
  cbn [find allValue val_context val_context_parameter].
  destruct (includes context AVAILABLE_CONTEXTS); cbn [negb].
  - unfold includes. cbn [existsb]. rewrite String.eqb_refl.
    destruct (String.eqb "all" context); reflexivity.
  - rewrite andb_false_r. reflexivity.
Qed.

Lemma formatsTo_legacy context scope source entry :
  formatsTo context scope source (toEnvelopeItem entry) =
  if includes context AVAILABLE_CONTEXTS
  then Some (legacyVariable source (snd entry))
  else None.
Proof.
  unfold formatsTo.
  change (item_values (toEnvelopeItem entry)) with [allValue (snd entry)].
  rewrite findValueInValues_all.
  destruct (includes context AVAILABLE_CONTEXTS); [|reflexivity].
  assert (Hscope : inScope scope (toEnvelopeItem entry) = true).
  { destruct scope as [|[]]; reflexivity. }
  rewrite Hscope. reflexivity.
Qed.

(** X9: a flat mapping that went through the forward translation is
    formatted, for each of the five enumerated contexts and for every
    requested scope, to one record per key, tagged ['all'], with the four
    scopes and the original value (the empty string included); for any
    other context string the formatted mapping is empty. *)
Theorem legacy_variables_formatted (M : obj string) context scope source :
  NoDup (keys M) ->
  exists o,
    formatEnvelopeData context
      (Some (Items (translateFromMongoToEnvelope (Some M)))) scope source
      = Return o /\
    forall k,
      obj_get k o =
      if includes (default "dev" context) AVAILABLE_CONTEXTS
      then option_map (legacyVariable source) (obj_get k M)
      else None.
Proof.
  intros Hnd.
  unfold translateFromMongoToEnvelope, entries. cbn [default].
  assert (Hkeys : map item_key (map toEnvelopeItem M) = keys M).
  { unfold keys. rewrite map_map. reflexivity. }
  destruct (formatEnvelopeData_distinct_keys context (map toEnvelopeItem M)
              scope source) as (o & Ho & Hin & Hout).
  { now rewrite Hkeys. }
  exists o. split; [exact Ho|].
  intros k. destruct (obj_get k M) as [v|] eqn:E.
  - apply obj_get_in in E.
    pose proof (Hin (toEnvelopeItem (k, v)) (in_map _ _ _ E)) as Hk.
    rewrite formatsTo_legacy in Hk. exact Hk.
  - rewrite Hout.
    + destruct (includes _ AVAILABLE_CONTEXTS); reflexivity.
    + rewrite Hkeys. now apply obj_get_none_iff.
Qed.

Lemma legacy_variables_formatted_witness :
  exists o,
    formatEnvelopeData (Some "production")
      (Some (Items (translateFromMongoToEnvelope (Some [("B", "x"); ("A", "")]))))
      (Some (only runtime)) ui
      = Return o /\
    forall k,
      obj_get k o =
      if includes (default "dev" (Some "production")) AVAILABLE_CONTEXTS
      then option_map (legacyVariable ui) (obj_get k [("B", "x"); ("A", "")])
      else None.
Proof.
  apply (legacy_variables_formatted [("B", "x"); ("A", "")] (Some "production")
           (Some (only runtime)) ui).
  repeat constructor; simpl; intuition discriminate.
Defined.

Lemma find_agree {A : Type} (p q : A -> bool) (l : list A) :
  (forall x, In x l -> p x = q x) -> find p l = find q l.
Proof.
  induction l as [|a l IH]; simpl; intros H; [reflexivity|].
  rewrite (H a) by now left.
  destruct (q a); [reflexivity|]. apply IH. intros x Hx. apply H. now right.
Qed.

(** X10: for an enumerated context and items with distinct keys whose
    values carry no context parameter, the flat translation and the
    formatter agree: the flat mapping holds, under each key, the value of
    the formatted record, unless that value is the empty string. *)
Theorem flat_translation_agrees_with_formatter items context source :
  NoDup (map item_key items) ->
  includes (default "dev" context) AVAILABLE_CONTEXTS = true ->
  (forall item val,
     In item items -> In val (item_values item) ->
     val_context_parameter val = None) ->
  exists o,
    formatEnvelopeData context (Some (Items items)) (Some any) source = Return o /\
    forall k,
      obj_get k (translateFromEnvelopeToMongo (Some items) context) =
      nonEmpty (option_map var_value (obj_get k o)).
Proof.
  intros Hnd Hctx Hparam.
  destruct (formatEnvelopeData_distinct_keys context items (Some any) source Hnd)
    as (o & Ho & Hin & Hout).
  exists o. split; [exact Ho|].
  intros k. rewrite translateFromEnvelopeToMongo_get.
  change (default [] (Some items)) with items.
  change (default any (Some any)) with any in Hin.
  set (ctx := default "dev" context) in *.
  assert (Hnds : NoDup (map item_key (sort compareKeys items))).
  { eapply Permutation_NoDup;
      [symmetry; apply Permutation_map, sort_perm | exact Hnd]. }
  destruct (in_dec string_dec k (map item_key items)) as [Hk|Hk].
  - apply in_map_iff in Hk. destruct Hk as (item & <- & Hitem).
    rewrite (lastFlat_distinct_keys ctx (sort compareKeys items) item Hnds)
      by (eapply Permutation_in; [symmetry; apply sort_perm | exact Hitem]).
    rewrite (Hin item Hitem).
    unfold flatValue, formatsTo, findValueInValues. cbn [inScope].
    rewrite Hctx. cbn [negb].
    rewrite (find_agree
               (fun val => includes (contextOf val) [ctx; "all"])
               (fun val => includes (val_context val) [ctx; "all"])).
    + destruct (find _ (item_values item)) as [val|]; [|reflexivity].
      simpl. destruct (String.eqb (val_value val) ""); reflexivity.
    + intros val Hval. unfold contextOf.
      now rewrite (Hparam item val Hitem Hval).
  - rewrite (Hout k Hk). apply lastFlat_absent.
    intros Hin'. apply Hk.
    eapply Permutation_in; [apply Permutation_map, sort_perm | exact Hin'].
Qed.

Lemma flat_translation_agrees_with_formatter_witness :
  exists o,
    formatEnvelopeData (Some "production")
      (Some (Items [sampleItem "B" "dev" "1"; sampleItem "A" "production" "2";
                    sampleItem "C" "all" ""]))
      (Some any) ui = Return o /\
    forall k,
      obj_get k (translateFromEnvelopeToMongo
                   (Some [sampleItem "B" "dev" "1"; sampleItem "A" "production" "2";
                          sampleItem "C" "all" ""])
                   (Some "production")) =
      nonEmpty (option_map var_value (obj_get k o)).
Proof.
  apply (flat_translation_agrees_with_formatter
           [sampleItem "B" "dev" "1"; sampleItem "A" "production" "2";
            sampleItem "C" "all" ""] (Some "production") ui).
  - repeat constructor; simpl; intuition discriminate.
  - reflexivity.
  - simpl. intros item val [<-|[<-|[<-|[]]]] [<-|[]]; reflexivity.
Defined.

(** ** Further properties of the source partitioner and the merger *)

(** X11: for a local mapping, the partitioner keeps under a source tag
    exactly the entries whose first recorded source is that tag, each
    with its record unchanged; an entry without a recorded source is in
    no part. *)
Theorem filterEnvBySource_partition env source k variable :
  NoDup (keys env) ->
  (obj_get k (filterEnvBySource env source) = Some variable <->
   obj_get k env = Some variable /\
   exists rest, var_sources variable = source :: rest).
Proof.
  intros Hnd. rewrite filterEnvBySource_get by exact Hnd.
  assert (Hsrc : forall v, fromSource source v = true <->
                           exists rest, var_sources v = source :: rest).
  { intros v. unfold fromSource. destruct (var_sources v) as [|first rest].
    - split; [discriminate | intros [rest H]; discriminate].
    - split.
      + intros H. exists rest. f_equal.
        destruct first, source; simpl in H; congruence.
      + intros [rest' [= -> _]]. destruct source; reflexivity. }
  destruct (obj_get k env) as [v|].
  - destruct (fromSource source v) eqn:E.
    + split; [intros [= <-]; split; [reflexivity | now apply Hsrc] | tauto].
    + split; [discriminate|]. intros [[= <-] H]. apply Hsrc in H. congruence.
  - split; [discriminate | intros [H _]; discriminate].
Qed.

Lemma filterEnvBySource_partition_witness :
  obj_get "B"
    (filterEnvBySource [("A", localVar general "1"); ("B", localVar addons "2")]
       addons) = Some (localVar addons "2") <->
  obj_get "B" [("A", localVar general "1"); ("B", localVar addons "2")]
    = Some (localVar addons "2") /\
  exists rest, var_sources (localVar addons "2") = addons :: rest.
Proof.
  apply (filterEnvBySource_partition
           [("A", localVar general "1"); ("B", localVar addons "2")]
           addons "B" (localVar addons "2")).
  repeat constructor; simpl; intuition discriminate.
Defined.

Lemma resolution_lookup api context env key scope a siteId k :
  NoDup (keys env) ->
  exists accountEnv siteEnv m,
    Resolves api context env key scope a siteId accountEnv siteEnv m /\
    obj_get k m =
    match (if includeConfigEnvVars (default any scope)
           then match obj_get k env with
                | Some v => if fromSource configFile v then Some v else None
                | None => None
                end
           else None) with
    | Some v => Some v
    | None =>
        match obj_get k siteEnv with
        | Some v => Some v
        | None =>
            match (if includeConfigEnvVars (default any scope)
                   then match obj_get k env with
                        | Some v => if fromSource addons v then Some v else None
                        | None => None
                        end
                   else None) with
            | Some v => Some v
            | None =>
                match obj_get k accountEnv with
                | Some v => Some v
                | None =>
                    match obj_get k env with
                    | Some v => if fromSource general v then Some v else None
                    | None => None
                    end
                end
            end
        end
    end.
Proof.
  intros Hnd.
  destruct (getEnvelopeEnv_defined api context env key scope a siteId)
    as (accountEnv & siteEnv & m & Hres & Hget).
  exists accountEnv, siteEnv, m. split; [exact Hres|].
  rewrite Hget, layered_precedence.
  destruct (includeConfigEnvVars (default any scope));
    rewrite ?filterEnvBySource_get by exact Hnd; reflexivity.
Qed.

(** X12: a local entry whose first recorded source is none of
    ['general'], ['addons'] and ['configFile'] never reaches the
    resolution: under its key the resolution holds the site-level record,
    else the account-level record, else nothing. *)
Theorem other_local_sources_dropped api context env key scope a siteId k variable :
  NoDup (keys env) ->
  obj_get k env = Some variable ->
  fromSource general variable = false ->
  fromSource addons variable = false ->
  fromSource configFile variable = false ->
  exists accountEnv siteEnv m,
    Resolves api context env key scope a siteId accountEnv siteEnv m /\
    obj_get k m =
    match obj_get k siteEnv with
    | Some remote => Some remote
    | None => obj_get k accountEnv
    end.
Proof.
  intros Hnd Henv Hg Ha Hc.
  destruct (resolution_lookup api context env key scope a siteId k Hnd)
    as (accountEnv & siteEnv & m & Hres & Hget).
  exists accountEnv, siteEnv, m. split; [exact Hres|].
  rewrite Hget, Henv, Hg, Ha, Hc.
  destruct (includeConfigEnvVars (default any scope));
    destruct (obj_get k siteEnv); try reflexivity;
    destruct (obj_get k accountEnv); reflexivity.
Qed.

Lemma other_local_sources_dropped_witness :
  exists accountEnv siteEnv m,
    Resolves (listApi [] []) None
      [("A", localVar ui "1"); ("B", localVar general "2")] None None
      "acct" (Some "site-1") accountEnv siteEnv m /\
    obj_get "A" m =
    match obj_get "A" siteEnv with
    | Some remote => Some remote
    | None => obj_get "A" accountEnv
    end.
Proof.
  apply (other_local_sources_dropped (listApi [] []) None
           [("A", localVar ui "1"); ("B", localVar general "2")] None None
           "acct" (Some "site-1") "A" (localVar ui "1")).
  - repeat constructor; simpl; intuition discriminate.
  - reflexivity.
  - reflexivity.
  - reflexivity.
  - reflexivity.
Defined.

(** X13: every record of a resolution is the site-level record of its
    key, or the account-level record, or the entry of the local mapping
    under that key, whose first source is then ['general'], or, for the
    scopes that include the config variables only, ['addons'] or
    ['configFile']. *)
Theorem resolution_provenance api context env key scope a siteId :
  NoDup (keys env) ->
  exists accountEnv siteEnv m,
    Resolves api context env key scope a siteId accountEnv siteEnv m /\
    forall k variable,
      obj_get k m = Some variable ->
      obj_get k siteEnv = Some variable \/
      obj_get k accountEnv = Some variable \/
      (obj_get k env = Some variable /\
       (fromSource general variable = true \/
        (includeConfigEnvVars (default any scope) = true /\
         (fromSource addons variable = true \/
          fromSource configFile variable = true)))).
Proof.
  intros Hnd.
  destruct (getEnvelopeEnv_defined api context env key scope a siteId)
    as (accountEnv & siteEnv & m & Hres & Hget).
  exists accountEnv, siteEnv, m. split; [exact Hres|].
  intros k variable Hk. rewrite Hget, layered_precedence in Hk.
  assert (Hlocal : forall source,
            obj_get k (filterEnvBySource env source) = Some variable ->
            obj_get k env = Some variable /\ fromSource source variable = true).
  { intros source H. rewrite filterEnvBySource_get in H by exact Hnd.
    destruct (obj_get k env) as [v|]; [|discriminate].
    destruct (fromSource source v) eqn:E; [|discriminate].
    injection H as <-. auto. }
  destruct (includeConfigEnvVars (default any scope)) eqn:Hinc; cbn [obj_get] in Hk.
  - destruct (obj_get k (filterEnvBySource env configFile)) eqn:Hc.
    { injection Hk as ->. apply Hlocal in Hc. tauto. }
    destruct (obj_get k siteEnv); [injection Hk as ->; tauto|].
    destruct (obj_get k (filterEnvBySource env addons)) eqn:Ha.
    { injection Hk as ->. apply Hlocal in Ha. tauto. }
    destruct (obj_get k accountEnv); [injection Hk as ->; tauto|].
    apply Hlocal in Hk. tauto.
  - destruct (obj_get k siteEnv); [injection Hk as ->; tauto|].
    destruct (obj_get k accountEnv); [injection Hk as ->; tauto|].
    apply Hlocal in Hk. tauto.
Qed.

Lemma resolution_provenance_witness :
  exists accountEnv siteEnv m,
    Resolves (listApi [sampleItem "A" "all" "2"] []) None
      [("A", localVar general "1"); ("B", localVar configFile "3")] None
      (Some (only runtime)) "acct" (Some "site-1") accountEnv siteEnv m /\
    forall k variable,
      obj_get k m = Some variable ->
      obj_get k siteEnv = Some variable \/
      obj_get k accountEnv = Some variable \/
      (obj_get k [("A", localVar general "1"); ("B", localVar configFile "3")]
         = Some variable /\
       (fromSource general variable = true \/
        (includeConfigEnvVars (default any (Some (only runtime))) = true /\
         (fromSource addons variable = true \/
          fromSource configFile variable = true)))).
Proof.
  apply (resolution_provenance (listApi [sampleItem "A" "all" "2"] []) None
           [("A", localVar general "1"); ("B", localVar configFile "3")] None
           (Some (only runtime)) "acct" (Some "site-1")).
  repeat constructor; simpl; intuition discriminate.
Defined.

Lemma formatted_length context items scope source o :
  formatEnvelopeData context (Some (Items items)) scope source = Return o ->
  List.length o <= List.length items.
Proof.
  intros Ho.
  destruct (formatEnvelopeData_items context items scope source)
    as (o' & Ho' & Hnd & Hout).
  rewrite Ho in Ho'. injection Ho' as <-.
  rewrite <- (length_map fst o), <- (length_map item_key items).
  apply NoDup_incl_length; [exact Hnd|].
  intros k Hk.
  destruct (in_dec string_dec k (map item_key items)) as [Hin|Hnot];
    [exact Hin|].
  exfalso. apply (proj1 (obj_get_none_iff k o) (Hout k Hnot)). exact Hk.
Qed.

Lemma request_single_key api a key siteId :
  key <> "" ->
  request api a key siteId =
  match getEnvVar api a key siteId with
  | Return item => Return [item]
  | Throw e => Throw e
  end.
Proof.
  intros Hkey. unfold request.
  destruct (String.eqb_spec key ""); [contradiction | reflexivity].
Qed.

(** X14: with a non-empty key filter both fetches go through
    [getEnvVar] and never through [getEnvVars]; the account-level and
    the site-level parts of the resolution hold at most one variable
    each; the local sources are not filtered by the key: under any key
    that neither remote part holds, the resolution reads the local parts
    as it does without remote variables. *)
Theorem single_key_remote_parts api context env key scope a siteId :
  key <> "" ->
  exists accountEnv siteEnv m,
    Resolves api context env (Some key) scope a siteId accountEnv siteEnv m /\
    fetchEnvelopeItems (Some a) api key None =
      Return (Items match getEnvVar api a key None with
                    | Return item => [item]
                    | Throw _ => []
                    end) /\
    fetchEnvelopeItems (Some a) api key siteId =
      Return (Items match getEnvVar api a key siteId with
                    | Return item => [item]
                    | Throw _ => []
                    end) /\
    (forall otherGetEnvVars,
       getEnvelopeEnv
         {| getEnvVar := getEnvVar api; getEnvVars := otherGetEnvVars |}
         context env (Some key) scope {| account_slug := Some a; id := siteId |}
       = Return m) /\
    List.length accountEnv <= 1 /\ List.length siteEnv <= 1 /\
    (forall k,
       obj_get k accountEnv = None -> obj_get k siteEnv = None ->
       obj_get k m = layered k (precedence (default any scope) env [] [])).
Proof.
  intros Hkey.
  destruct (getEnvelopeEnv_defined api context env (Some key) scope a siteId)
    as (accountEnv & siteEnv & m & Hres & Hget).
  exists accountEnv, siteEnv, m. split; [exact Hres|].
  assert (Hfetch : forall store s,
            fetchEnvelopeItems (Some a) store key s =
            Return (Items match getEnvVar store a key s with
                          | Return item => [item]
                          | Throw _ => []
                          end)).
  { intros store s. rewrite fetchEnvelopeItems_defined, request_single_key
      by exact Hkey.
    destruct (getEnvVar store a key s); reflexivity. }
  destruct Hres as (accountItems & siteItems & Hfa & Hfs & Ha & Hs & _ & _ & Hm).
  cbn [default] in Hfa, Hfs.
  split; [apply Hfetch|]. split; [apply Hfetch|].
  split.
  { intros otherGetEnvVars. rewrite <- Hm.
    unfold getEnvelopeEnv. cbn [account_slug id default].
    rewrite !Hfetch. reflexivity. }
  rewrite Hfetch in Hfa, Hfs. injection Hfa as <-. injection Hfs as <-.
  split; [|split].
  - eapply Nat.le_trans; [eapply formatted_length; exact Ha|].
    destruct (getEnvVar api a key None); simpl; auto.
  - eapply Nat.le_trans; [eapply formatted_length; exact Hs|].
    destruct (getEnvVar api a key siteId); simpl; auto.
  - intros k Hka Hks. rewrite Hget, !layered_precedence, Hka, Hks.
    reflexivity.
Qed.

Lemma single_key_remote_parts_witness :
  exists accountEnv siteEnv m,
    Resolves
      {| getEnvVar := fun _ k _ => Return (sampleItem k "all" "1");
         getEnvVars := fun _ _ => Return [] |}
      None [("B", localVar general "2")] (Some "A") None "acct" (Some "site-1")
      accountEnv siteEnv m /\
    fetchEnvelopeItems (Some "acct")
      {| getEnvVar := fun _ k _ => Return (sampleItem k "all" "1");
         getEnvVars := fun _ _ => Return [] |} "A" None =
      Return (Items match Return (sampleItem "A" "all" "1") with
                    | Return item => [item]
                    | Throw _ => []
                    end) /\
    fetchEnvelopeItems (Some "acct")
      {| getEnvVar := fun _ k _ => Return (sampleItem k "all" "1");
         getEnvVars := fun _ _ => Return [] |} "A" (Some "site-1") =
      Return (Items match Return (sampleItem "A" "all" "1") with
                    | Return item => [item]
                    | Throw _ => []
                    end) /\
    (forall otherGetEnvVars,
       getEnvelopeEnv
         {| getEnvVar := fun _ k _ => Return (sampleItem k "all" "1");
            getEnvVars := otherGetEnvVars |}
         None [("B", localVar general "2")] (Some "A") None
         {| account_slug := Some "acct"; id := Some "site-1" |}
       = Return m) /\
    List.length accountEnv <= 1 /\ List.length siteEnv <= 1 /\
    (forall k,
       obj_get k accountEnv = None -> obj_get k siteEnv = None ->
       obj_get k m =
       layered k (precedence (default any None) [("B", localVar general "2")] [] [])).
Proof.
  apply (single_key_remote_parts
           {| getEnvVar := fun _ k _ => Return (sampleItem k "all" "1");
              getEnvVars := fun _ _ => Return [] |}
           None [("B", localVar general "2")] "A" None "acct" (Some "site-1")).
  discriminate.
Defined.

(** ** Further properties of the context normalizer *)

(** X15: the normalizer throws exactly for the names that every object
    inherits ([toString], [constructor], ...), and what it throws is a
    [TypeError]; for every other argument it returns. *)
Theorem normalizeContext_throws (context : option string) :
  (normalizeContext context = Throw TypeError <->
   exists c, context = Some c /\ In c OBJECT_PROTOTYPE_KEYS) /\
  ((forall c, context = Some c -> ~ In c OBJECT_PROTOTYPE_KEYS) ->
   exists normalized, normalizeContext context = Return normalized).
Proof.
  destruct context as [c|].
  - assert (Hin : In c OBJECT_PROTOTYPE_KEYS ->
                  normalizeContext (Some c) = Throw TypeError).
    { simpl. intros H.
      repeat (destruct H as [<-|H]; [reflexivity|]). destruct H. }
    assert (Hout : ~ In c OBJECT_PROTOTYPE_KEYS ->
                   exists normalized, normalizeContext (Some c) = Return normalized).
    { intros H. unfold normalizeContext.
      destruct c as [|ch rest]; [eauto|].
      assert (E : includes (String ch rest) OBJECT_PROTOTYPE_KEYS = false).
      { destruct (includes (String ch rest) OBJECT_PROTOTYPE_KEYS) eqn:E;
          [|reflexivity].
        apply includes_spec in E. contradiction. }
      rewrite E, orb_false_r. unfold obj_has.
      destruct (obj_get (String ch rest) CONTEXT_SYNONYMS); eauto. }
    split.
    + split.
      * intros H. exists c. split; [reflexivity|].
        destruct (in_dec string_dec c OBJECT_PROTOTYPE_KEYS) as [Hc|Hc];
          [exact Hc|].
        destruct (Hout Hc) as (normalized & E). congruence.
      * intros (c' & [= <-] & Hc). now apply Hin.
    + intros H. apply Hout. now apply H.
  - split.
    + split; [discriminate | intros (c & H & _); discriminate].
    + intros _. exists None. reflexivity.
Qed.

Lemma normalizeContext_throws_witness :
  exists normalized, normalizeContext (Some "branch:staging") = Return normalized.
Proof.
  apply (proj2 (normalizeContext_throws (Some "branch:staging"))).
  intros c [= <-]. simpl. intuition discriminate.
Defined.

(** ** A further property of the scope humanizer *)

(** X16: the shorthand "All" is the rendering of the sequences of four
    scopes, repeated scopes included, and of no other sequence. *)
Theorem humanized_all_iff_four (scopes : list Scope) :
  getHumanReadableScopes (Some scopes) = "All" <-> List.length scopes = 4.
Proof.
  unfold getHumanReadableScopes.
  change (List.length HUMAN_SCOPES) with 4.
  destruct (Nat.eqb_spec (List.length scopes) 4) as [E|E].
  - tauto.
  - split; [|contradiction]. intros H. exfalso.
    destruct scopes as [|s rest]; [discriminate H|].
    destruct s, rest; discriminate H.
Qed.

(** ** The context that the merger matches on *)

Lemma filterEnvBySource_in env source k variable :
  obj_get k (filterEnvBySource env source) = Some variable ->
  In (k, variable) env /\ fromSource source variable = true.
Proof.
  unfold filterEnvBySource, fromEntries, entries. intros H.
  rewrite obj_get_assign_rev in H.
  destruct (obj_get k (rev (filter _ env))) as [v|] eqn:E; [|discriminate H].
  injection H as ->. apply obj_get_in in E. apply in_rev in E.
  apply filter_In in E. exact E.
Qed.

Lemma formatted_record_applies context items scope source o k variable :
  source = account \/ source = ui ->
  formatEnvelopeData (Some context) (Some (Items items)) scope source = Return o ->
  obj_get k o = Some variable ->
  remoteRecord context k variable.
Proof.
  intros Hsource Ho Hk.
  destruct (formatEnvelopeData_get (Some context) items scope source)
    as (o' & Ho' & Hget).
  rewrite Ho in Ho'. injection Ho' as <-.
  rewrite Hget in Hk. cbn [default] in Hk.
  destruct (lastWithKey k _) as [item|] eqn:E; [|discriminate].
  apply lastWithKey_in in E. destruct E as [_ Hkey].
  unfold formatsTo in Hk.
  destruct (findValueInValues (item_values item) context) as [val|] eqn:Hval;
    [|discriminate].
  destruct (inScope (default any scope) item); [|discriminate].
  injection Hk as <-.
  exists item, val, source. repeat split; try assumption.
  unfold findValueInValues in Hval. apply find_some in Hval.
  apply applies_spec. exact (proj2 Hval).
Qed.

(** C5 (amended): the merger does not normalize the context. It hands
    the string it is given to the formatter, so every record of a
    resolution is a local entry or comes from a value that applies to
    that very string; ['prod'], ['dp'] and the ['branch:']-prefixed names
    are no enumerated contexts, and the remote records of a resolution
    for them are branch values whose parameter is that literal string.
    The synonyms and the prefix are rewritten by the normalizer alone. *)
Theorem merger_matches_context_as_given :
  (forall api context env key scope a siteId,
     exists accountEnv siteEnv m,
       Resolves api context env key scope a siteId accountEnv siteEnv m /\
       forall k variable,
         obj_get k m = Some variable ->
         localRecord env k variable \/
         remoteRecord (default "dev" context) k variable) /\
  (forall context k variable,
     includes context AVAILABLE_CONTEXTS = false ->
     remoteRecord context k variable ->
     var_branch variable = Some context /\
     (var_context variable = Some "branch" \/ var_context variable = Some "all")) /\
  includes "prod" AVAILABLE_CONTEXTS = false /\
  includes "dp" AVAILABLE_CONTEXTS = false /\
  (forall branch, includes ("branch:" ++ branch)%string AVAILABLE_CONTEXTS = false) /\
  normalizeContext (Some "prod") = Return (Some "production") /\
  normalizeContext (Some "dp") = Return (Some "deploy-preview") /\
  (forall branch,
     normalizeContext (Some ("branch:" ++ branch)%string) = Return (Some branch)).
Proof.
  split.
  { intros api context env key scope a siteId.
    destruct (getEnvelopeEnv_defined api context env key scope a siteId)
      as (accountEnv & siteEnv & m & Hres & Hget).
    exists accountEnv, siteEnv, m. split; [exact Hres|].
    destruct Hres as (accountItems & siteItems & _ & _ & Ha & Hs & _).
    intros k variable Hk. rewrite Hget, layered_precedence in Hk.
    assert (Hlocal : forall source,
              source <> account -> source <> ui ->
              obj_get k (if includeConfigEnvVars (default any scope)
                         then filterEnvBySource env source else [])
                = Some variable ->
              localRecord env k variable).
    { intros source Hna Hnu H.
      destruct (includeConfigEnvVars (default any scope)); [|discriminate H].
      apply filterEnvBySource_in in H. destruct H as [Hin Hsrc].
      split; [exact Hin|]. destruct source; tauto. }
    destruct (obj_get k (if includeConfigEnvVars (default any scope)
                         then filterEnvBySource env configFile else [])) eqn:Hc.
    { injection Hk as ->. left. apply (Hlocal configFile); congruence. }
    destruct (obj_get k siteEnv) eqn:Hsite.
    { injection Hk as ->. right.
      eapply formatted_record_applies; [right; reflexivity | exact Hs | exact Hsite]. }
    destruct (obj_get k (if includeConfigEnvVars (default any scope)
                         then filterEnvBySource env addons else [])) eqn:Had.
    { injection Hk as ->. left. apply (Hlocal addons); congruence. }
    destruct (obj_get k accountEnv) eqn:Hacc.
    { injection Hk as ->. right.
      eapply formatted_record_applies; [left; reflexivity | exact Ha | exact Hacc]. }
    left. apply filterEnvBySource_in in Hk. destruct Hk as [Hin Hsrc].
    split; [exact Hin | tauto]. }
  split.
  { intros context k variable Hctx (item & val & source & _ & _ & _ & Happ & ->).
    unfold applies in Happ. rewrite Hctx in Happ.
    destruct Happ as [Htag Hparam]. cbn [resolvedVariable var_branch var_context].
    split; [exact Hparam|]. destruct Htag as [-> | ->]; tauto. }
  split; [reflexivity|]. split; [reflexivity|].
  split; [intros branch; reflexivity|].
  split; [reflexivity|]. split; [reflexivity|].
  intros branch. unfold normalizeContext, replace_prefix. cbn.
  destruct branch; reflexivity.
Qed.

(** ** Local entries and the requested scope *)

(** C10, as stated, fails in its last clause: with no remote variable at
    all, the requested scope decides which local entries are resolved. *)
Lemma requested_scope_selects_local_entries :
  exists forRuntime forBuilds,
    getEnvelopeEnv (listApi [] []) None
      [("G", localVar general "1"); ("D", localVar addons "2");
       ("C", localVar configFile "3")]
      None (Some (only runtime)) (site (Some "acct")) = Return forRuntime /\
    getEnvelopeEnv (listApi [] []) None
      [("G", localVar general "1"); ("D", localVar addons "2");
       ("C", localVar configFile "3")]
      None (Some (only builds)) (site (Some "acct")) = Return forBuilds /\
    keys forRuntime = ["G"] /\
    keys forBuilds = ["G"; "D"; "C"] /\
    forRuntime <> forBuilds.
Proof.
  eexists. eexists.
  split; [vm_compute; reflexivity|]. split; [vm_compute; reflexivity|].
  split; [reflexivity|]. split; [reflexivity|]. discriminate.
Qed.

(** C10 (amended): an entry of the local mapping whose first source is
    ['general'] is resolved whatever the requested scope and whatever its
    own [scopes] field, unless the account or the site has a variable
    with its key. The other local entries are selected by their first
    source and by the requested scope: an ['addons'] or ['configFile']
    entry is resolved only for the scopes that include the config
    variables (a ['configFile'] entry then always, an ['addons'] entry
    unless the site has a variable with its key), and for the other
    scopes the resolution reads the remote variables only. *)
Theorem local_entries_and_requested_scope
    api context env key scope a siteId k variable :
  NoDup (keys env) ->
  obj_get k env = Some variable ->
  exists accountEnv siteEnv m,
    Resolves api context env key scope a siteId accountEnv siteEnv m /\
    (fromSource general variable = true ->
     obj_get k m =
     match obj_get k siteEnv with
     | Some remote => Some remote
     | None =>
         match obj_get k accountEnv with
         | Some remote => Some remote
         | None => Some variable
         end
     end) /\
    (fromSource addons variable = true ->
     obj_get k m =
     match obj_get k siteEnv with
     | Some remote => Some remote
     | None =>
         if includeConfigEnvVars (default any scope) then Some variable
         else obj_get k accountEnv
     end) /\
    (fromSource configFile variable = true ->
     obj_get k m =
     if includeConfigEnvVars (default any scope) then Some variable
     else match obj_get k siteEnv with
          | Some remote => Some remote
          | None => obj_get k accountEnv
          end).
Proof.
  intros Hnd Henv.
  destruct (resolution_lookup api context env key scope a siteId k Hnd)
    as (accountEnv & siteEnv & m & Hres & Hget).
  exists accountEnv, siteEnv, m. split; [exact Hres|].
  rewrite Henv in Hget.
  split; [|split]; intros Hsrc; rewrite Hget.
  - rewrite Hsrc,
      (fromSource_other general addons variable Hsrc),
      (fromSource_other general configFile variable Hsrc) by discriminate.
    destruct (includeConfigEnvVars (default any scope));
      destruct (obj_get k siteEnv); try reflexivity;
      destruct (obj_get k accountEnv); reflexivity.
  - rewrite Hsrc,
      (fromSource_other addons general variable Hsrc),
      (fromSource_other addons configFile variable Hsrc) by discriminate.
    destruct (includeConfigEnvVars (default any scope));
      destruct (obj_get k siteEnv); try reflexivity;
      destruct (obj_get k accountEnv); reflexivity.
  - rewrite Hsrc,
      (fromSource_other configFile general variable Hsrc),
      (fromSource_other configFile addons variable Hsrc) by discriminate.
    destruct (includeConfigEnvVars (default any scope));
      destruct (obj_get k siteEnv); try reflexivity;
      destruct (obj_get k accountEnv); reflexivity.
Qed.

Lemma local_entries_and_requested_scope_witness :
  exists accountEnv siteEnv m,
    Resolves (listApi [sampleItem "B" "all" "2"] []) None
      [("G", {| var_context := None; var_branch := None;
                var_scopes := Some [builds]; var_sources := [general];
                var_value := "1" |});
       ("C", localVar configFile "3")]
      None (Some (only runtime)) "acct" (Some "site-1") accountEnv siteEnv m /\
    (fromSource general
       {| var_context := None; var_branch := None;
          var_scopes := Some [builds]; var_sources := [general];
          var_value := "1" |} = true ->
     obj_get "G" m =
     match obj_get "G" siteEnv with
     | Some remote => Some remote
     | None =>
         match obj_get "G" accountEnv with
         | Some remote => Some remote
         | None => Some {| var_context := None; var_branch := None;
                           var_scopes := Some [builds]; var_sources := [general];
                           var_value := "1" |}
         end
     end) /\
    (fromSource addons
       {| var_context := None; var_branch := None;
          var_scopes := Some [builds]; var_sources := [general];
          var_value := "1" |} = true ->
     obj_get "G" m =
     match obj_get "G" siteEnv with
     | Some remote => Some remote
     | None =>
         if includeConfigEnvVars (default any (Some (only runtime)))
         then Some {| var_context := None; var_branch := None;
                      var_scopes := Some [builds]; var_sources := [general];
                      var_value := "1" |}
         else obj_get "G" accountEnv
     end) /\
    (fromSource configFile
       {| var_context := None; var_branch := None;
          var_scopes := Some [builds]; var_sources := [general];
          var_value := "1" |} = true ->
     obj_get "G" m =
     if includeConfigEnvVars (default any (Some (only runtime)))
     then Some {| var_context := None; var_branch := None;
                  var_scopes := Some [builds]; var_sources := [general];
                  var_value := "1" |}
     else match obj_get "G" siteEnv with
          | Some remote => Some remote
          | None => obj_get "G" accountEnv
          end).
Proof.
  apply (local_entries_and_requested_scope
           (listApi [sampleItem "B" "all" "2"] []) None
           [("G", {| var_context := None; var_branch := None;
                     var_scopes := Some [builds]; var_sources := [general];
                     var_value := "1" |});
            ("C", localVar configFile "3")]
           None (Some (only runtime)) "acct" (Some "site-1") "G").
  - repeat constructor; simpl; intuition discriminate.
  - reflexivity.
Defined.
